(** * Roomy SDK: entity wrappers, entity lists and the reactions codec

    A shallow embedding of [src/src/components.ts] and [src/src/index.ts]
    (with the earlier catalog of [src/components.ts] kept for comparison),
    followed by the properties of the wrapper layer.

    The Leaf document store is an external collaborator.  It is modelled by
    an explicit store that maps entity identifiers to their component
    containers; wrapper methods are computations in a state-and-exception
    monad over that store, so that mutation, aliasing between wrappers over
    one entity, and the fact that a JavaScript [throw] does not roll back
    earlier writes are all visible. *)

From Stdlib Require Import ZArith Ascii.
From stdpp Require Import gmap strings list fin_maps.

Local Open Scope string_scope.
Local Open Scope list_scope.

(** ** JavaScript values used by the wrapper layer *)

(** What a [throw] carries. *)
Inductive Exn :=
| Error (message : string)   (* [throw new Error(message)] *)
| Thrown (value : string)    (* [throw "<string literal>"] *)
| TypeError                  (* calling something that is not a function *)
| Rejected.                  (* a fault surfaced by the document store *)

Inductive Outcome (A : Type) :=
| Ok (a : A)
| Throw (e : Exn).
Arguments Ok {A} a.
Arguments Throw {A} e.

Definition raises {A} (o : Outcome A) : Prop := ∃ e, o = Throw e.

(** [String.prototype.includes]: does [sub] occur somewhere in [s]? *)
Fixpoint includes (s sub : string) : bool :=
  String.prefix sub s ||
  match s with
  | EmptyString => false
  | String _ rest => includes rest sub
  end.

(** [String.prototype.split(" ")]: cut at every space; never empty. *)
Fixpoint split_space (s : string) : list string :=
  match s with
  | EmptyString => [EmptyString]
  | String c rest =>
      if Ascii.eqb c " "%char then EmptyString :: split_space rest
      else match split_space rest with
           | piece :: pieces => String c piece :: pieces
           | [] => [String c EmptyString]
           end
  end.

(** [Array.prototype.includes] on an array of strings. *)
Definition array_includes (l : list string) (x : string) : bool :=
  existsb (String.eqb x) l.

(** [Array.prototype.indexOf] on an array of strings: the position of the
    first entry equal to [x], or [-1]. *)
Fixpoint indexOf (l : list string) (x : string) : Z :=
  match l with
  | [] => (-1)%Z
  | y :: rest =>
      if String.eqb y x then 0%Z
      else let i := indexOf rest x in
           if (i <? 0)%Z then (-1)%Z else (i + 1)%Z
  end.

(** The properties every plain object inherits from [Object.prototype];
    [reactions[key]] is truthy for each of them although [reactions] has no
    own property of that name. *)
Definition object_prototype_keys : list string :=
  [ "constructor"; "hasOwnProperty"; "isPrototypeOf"; "propertyIsEnumerable";
    "toLocaleString"; "toString"; "valueOf"; "__proto__";
    "__defineGetter__"; "__defineSetter__"; "__lookupGetter__";
    "__lookupSetter__" ].

(** ** The component catalog ([components.ts]) *)

(** The container classes handed to [defComponent]. *)
Inductive ContainerKind :=
| LoroMap | LoroList | LoroMovableList | LoroText | Marker.

Global Instance ContainerKind_eq_dec : EqDecision ContainerKind.
Proof. solve_decision. Defined.

(** [defComponent(id, constructor, init)].  Every initialiser of the catalog
    has the shape [(map) => map.set(field, value)], recorded as the fields
    it sets. *)
Record ComponentDef := defComponent {
  def_id : string;
  def_constructor : ContainerKind;
  def_init : list (string * string)
}.

Global Instance ComponentDef_eq_dec : EqDecision ComponentDef.
Proof. solve_decision. Defined.

Module components.

Definition BasicMeta :=
  defComponent "name:01JPE9PEBF47QJR6THNW4J4JXJ" LoroMap [("name", "Unnamed")].
Definition ReplyTo :=
  defComponent "replyTo:01JPFR9RXR4BECAMCEH0M8XPQY" LoroMap [].
Definition SoftDeleted :=
  defComponent "softDeleted:01JPFQK63H9W2RA8Q5GQ19S1DY" Marker [].
Definition ImageUri :=
  defComponent "imageUri:01JPFRMSYWE2G0JHMS7RW478G3" LoroMap
    [("uri", "example:image")].
Definition Images :=
  defComponent "spaces:01JPE97AYAJSDP0NRAH79S9792" LoroMovableList [].
Definition Spaces :=
  defComponent "spaces:01JPE97AYAJSDP0NRAH79S9792" LoroMovableList [].
Definition Collection :=
  defComponent "collection:01JPEB6RBRYDG7CJWX74RK324E" LoroMovableList [].
Definition Channels :=
  defComponent "channels:01JPFMTA2QAFY2D3CV1C0YBZQ9" LoroMovableList [].
Definition Threads :=
  defComponent "threads:01JPEB05824ZR836QMV6B3E69F" LoroMovableList [].
Definition Messages :=
  defComponent "messages:01JPEAH76WBQ4XYZQZT7MQT19V" LoroMovableList [].
Definition AuthorUris :=
  defComponent "authorUris:01JPEBV8TJ8YCXXYD156NJSR5Y" LoroMovableList [].
Definition Content :=
  defComponent "content:01JPEBQARGPD0BQV7DYGC9TR5Z" LoroText [].
Definition SpaceSidebarNavigation :=
  defComponent "spaceSidebarNavigation:01JPFMBD0XT7B922PSQ7KQ99EW"
    LoroMovableList [].
Definition Admins :=
  defComponent "admins:01JPRKX4FVJ7GYV9AHRN12SSB2" LoroMovableList [].
Definition Reactions :=
  defComponent "reactions:01JPFTQACDW0KM3857XWER87RR" LoroList [].
Definition ChannelAnnouncement :=
  defComponent "channelAnnouncement:01JPFTN90MGBMBCMCNJ4V65YF2" LoroMap
    [("kind", "unknown")].

(** Every schema the module exports, paired with its export name, in
    source order. *)
Definition catalog : list (string * ComponentDef) :=
  [ ("BasicMeta", BasicMeta); ("ReplyTo", ReplyTo);
    ("SoftDeleted", SoftDeleted); ("ImageUri", ImageUri);
    ("Images", Images); ("Spaces", Spaces); ("Collection", Collection);
    ("Channels", Channels); ("Threads", Threads); ("Messages", Messages);
    ("AuthorUris", AuthorUris); ("Content", Content);
    ("SpaceSidebarNavigation", SpaceSidebarNavigation);
    ("Admins", Admins); ("Reactions", Reactions);
    ("ChannelAnnouncement", ChannelAnnouncement) ].

(** The identifiers of the earlier catalog ([src/components.ts]), which
    differs in [SoftDelete] and [AuthorDids] and has no [Admins]. *)
Definition earlier_catalog_ids : list (string * string) :=
  [ ("BasicMeta", "name:01JPE9PEBF47QJR6THNW4J4JXJ");
    ("ReplyTo", "replyTo:01JPFR9RXR4BECAMCEH0M8XPQY");
    ("SoftDelete", "softDelete:01JPFQK63H9W2RA8Q5GQ19S1DY");
    ("ImageUri", "imageUri:01JPFRMSYWE2G0JHMS7RW478G3");
    ("Images", "spaces:01JPE97AYAJSDP0NRAH79S9792");
    ("Spaces", "spaces:01JPE97AYAJSDP0NRAH79S9792");
    ("Collection", "collection:01JPEB6RBRYDG7CJWX74RK324E");
    ("Channels", "channels:01JPFMTA2QAFY2D3CV1C0YBZQ9");
    ("Threads", "threads:01JPEB05824ZR836QMV6B3E69F");
    ("Messages", "messages:01JPEAH76WBQ4XYZQZT7MQT19V");
    ("AuthorDids", "authorDids:01JPEBV8TJ8YCXXYD156NJSR5Y");
    ("Content", "content:01JPEBQARGPD0BQV7DYGC9TR5Z");
    ("SpaceSidebarNavigation",
     "spaceSidebarNavigation:01JPFMBD0XT7B922PSQ7KQ99EW");
    ("Reactions", "reactions:01JPFTQACDW0KM3857XWER87RR");
    ("ChannelAnnouncement",
     "channelAnnouncement:01JPFTN90MGBMBCMCNJ4V65YF2") ].

End components.

(** ** The document store (Leaf's side of the interface)

    An entity holds, for each container class, the containers that have been
    materialised under a component identifier.  Keeping one table per class
    makes a container have the shape its schema declares by construction. *)

Record EntityData := mkEntityData {
  maps : gmap string (gmap string string);
  lists : gmap string (list string);
  movable_lists : gmap string (list string);
  texts : gmap string string;
  markers : gset string
}.

Definition no_components : EntityData := mkEntityData ∅ ∅ ∅ ∅ ∅.

(** An [EntityId] prints as its string form; an [Entity] handle carries it. *)
Record EntityId := mkEntityId { toString : string }.
Record Entity := mkEntity { entity_id : EntityId }.

(** All open entities, by identifier.  An entity that is absent from the
    table has no components yet. *)
Abbreviation Store := (gmap string EntityData).

Definition data_of (e : Entity) (σ : Store) : EntityData :=
  default no_components (σ !! toString (entity_id e)).

Definition set_data (e : Entity) (d : EntityData) (σ : Store) : Store :=
  <[toString (entity_id e) := d]> σ.

(** ** The state-and-exception monad of wrapper methods *)

Definition M (A : Type) : Type := Store → Outcome A * Store.

Definition ret {A} (a : A) : M A := λ σ, (Ok a, σ).
Definition throw {A} (e : Exn) : M A := λ σ, (Throw e, σ).
Definition bind {A B} (m : M A) (k : A → M B) : M B :=
  λ σ, match m σ with
       | (Ok a, σ') => k a σ'
       | (Throw e, σ') => (Throw e, σ')
       end.

Notation "'let*' x := m 'in' k" := (bind m (λ x, k))
  (at level 10, x name, m at level 100, k at level 200).
Notation "m ;; k" := (bind m (λ _, k))
  (at level 100, k at level 200, right associativity).

(** [for (const x of xs) body(x)] *)
Fixpoint for_of {A} (xs : list A) (body : A → M unit) : M unit :=
  match xs with
  | [] => ret tt
  | x :: rest => body x ;; for_of rest body
  end.

(** ** Entities and their containers

    The classes [Entity], [LoroList] and [LoroMovableList] are imported from
    ["@muni-town/leaf"]; what the wrappers use of them is modelled from the
    contract of sections 4.1 and 6 of the specification. *)

(** A handle on one container of one entity, as [getOrInit] returns it.  It
    is a reference: reading through it sees later writes. *)
Record Container := mkContainer {
  owner : Entity;
  class_of : ContainerKind;
  key : string
}.

(** Modelled from the spec: what [entity.has(def)] tests, the presence of the
    component under the schema's identifier. *)
Definition present (d : ComponentDef) (ed : EntityData) : bool :=
  match def_constructor d with
  | LoroMap => bool_decide (is_Some (maps ed !! def_id d))
  | LoroList => bool_decide (is_Some (lists ed !! def_id d))
  | LoroMovableList => bool_decide (is_Some (movable_lists ed !! def_id d))
  | LoroText => bool_decide (is_Some (texts ed !! def_id d))
  | Marker => bool_decide (def_id d ∈ markers ed)
  end.

(** Modelled from the spec: the first materialisation of a component, "using
    defaultInit (or the container kind's empty value if no initializer is
    given)". *)
Definition materialise (d : ComponentDef) (ed : EntityData) : EntityData :=
  match def_constructor d with
  | LoroMap =>
      mkEntityData (<[def_id d := list_to_map (def_init d)]> (maps ed))
        (lists ed) (movable_lists ed) (texts ed) (markers ed)
  | LoroList =>
      mkEntityData (maps ed) (<[def_id d := []]> (lists ed))
        (movable_lists ed) (texts ed) (markers ed)
  | LoroMovableList =>
      mkEntityData (maps ed) (lists ed)
        (<[def_id d := []]> (movable_lists ed)) (texts ed) (markers ed)
  | LoroText =>
      mkEntityData (maps ed) (lists ed) (movable_lists ed)
        (<[def_id d := ""]> (texts ed)) (markers ed)
  | Marker =>
      mkEntityData (maps ed) (lists ed) (movable_lists ed) (texts ed)
        ({[def_id d]} ∪ markers ed)
  end.

(** The sequence held by a list container ([None] for the other classes,
    which have no list methods). *)
Definition list_in (ed : EntityData) (k : ContainerKind) (name : string)
  : option (list string) :=
  match k with
  | LoroList => Some (default [] (lists ed !! name))
  | LoroMovableList => Some (default [] (movable_lists ed !! name))
  | _ => None
  end.

Definition with_list (ed : EntityData) (k : ContainerKind) (name : string)
    (l : list string) : EntityData :=
  match k with
  | LoroList =>
      mkEntityData (maps ed) (<[name := l]> (lists ed)) (movable_lists ed)
        (texts ed) (markers ed)
  | LoroMovableList =>
      mkEntityData (maps ed) (lists ed) (<[name := l]> (movable_lists ed))
        (texts ed) (markers ed)
  | _ => ed
  end.

Definition list_of (c : Container) (σ : Store) : option (list string) :=
  list_in (data_of (owner c) σ) (class_of c) (key c).

Definition store_list (c : Container) (l : list string) (σ : Store) : Store :=
  set_data (owner c) (with_list (data_of (owner c) σ) (class_of c) (key c) l) σ.

(** Modelled from the spec: the movable list's [move(from, to)], after which
    the "entry originally at from is now at to; entries between shift by
    one"; an index outside the list is refused. *)
Definition moved (l : list string) (from to : Z) : option (list string) :=
  if (0 <=? from)%Z && (0 <=? to)%Z then
    match l !! Z.to_nat from with
    | Some x =>
        let l' := delete (Z.to_nat from) l in
        if decide (Z.to_nat to < length l)
        then Some (take (Z.to_nat to) l' ++ x :: drop (Z.to_nat to) l')
        else None
    | None => None
    end
  else None.

(** Modelled from the spec: the list containers' [insert(pos, value)], which
    inserts "at an arbitrary position, shifting subsequent entries", and
    [delete(pos, len)], which removes [len] entries from [pos]; a position
    outside the list is refused. *)
Definition inserted (l : list string) (pos : Z) (v : string)
  : option (list string) :=
  if (0 <=? pos)%Z && (pos <=? Z.of_nat (length l))%Z
  then Some (take (Z.to_nat pos) l ++ v :: drop (Z.to_nat pos) l)
  else None.

Definition deleted (l : list string) (pos len : Z) : option (list string) :=
  if (0 <=? pos)%Z && (0 <=? len)%Z && (pos + len <=? Z.of_nat (length l))%Z
  then Some (take (Z.to_nat pos) l ++ drop (Z.to_nat (pos + len)) l)
  else None.

(** Modelled from the spec: what [entity.delete(def)] takes away, the
    component under the schema's identifier. *)
Definition dematerialise (d : ComponentDef) (ed : EntityData) : EntityData :=
  match def_constructor d with
  | LoroMap =>
      mkEntityData (delete (def_id d) (maps ed)) (lists ed) (movable_lists ed)
        (texts ed) (markers ed)
  | LoroList =>
      mkEntityData (maps ed) (delete (def_id d) (lists ed)) (movable_lists ed)
        (texts ed) (markers ed)
  | LoroMovableList =>
      mkEntityData (maps ed) (lists ed) (delete (def_id d) (movable_lists ed))
        (texts ed) (markers ed)
  | LoroText =>
      mkEntityData (maps ed) (lists ed) (movable_lists ed)
        (delete (def_id d) (texts ed)) (markers ed)
  | Marker =>
      mkEntityData (maps ed) (lists ed) (movable_lists ed) (texts ed)
        (markers ed ∖ {[def_id d]})
  end.

(** The fields of a map container (none while it is absent), and the entity
    with one field of a map set. *)
Definition fields_of (c : Container) (σ : Store) : option (gmap string string) :=
  match class_of c with
  | LoroMap => Some (default ∅ (maps (data_of (owner c) σ) !! key c))
  | _ => None
  end.

Definition store_fields (c : Container) (m : gmap string string) (σ : Store)
  : Store :=
  let ed := data_of (owner c) σ in
  set_data (owner c)
    (mkEntityData (<[key c := m]> (maps ed)) (lists ed) (movable_lists ed)
       (texts ed) (markers ed)) σ.

Module Entity.

(** Modelled from the spec: [has] and [getOrInit], which "returns the
    existing component if present; otherwise materializes it [...] and
    returns the fresh value". *)
Definition has (e : Entity) (d : ComponentDef) : M bool :=
  λ σ, (Ok (present d (data_of e σ)), σ).

Definition getOrInit (e : Entity) (d : ComponentDef) : M Container :=
  λ σ,
    let c := mkContainer e (def_constructor d) (def_id d) in
    if present d (data_of e σ) then (Ok c, σ)
    else (Ok c, set_data e (materialise d (data_of e σ)) σ).

(** Modelled from the spec: [init] is "idempotent: initializing an
    already-present component is a no-op returning the existing value";
    [get] "returns an optional existing component"; [delete] is "idempotent:
    deleting an absent component is a no-op". *)
Definition init (e : Entity) (d : ComponentDef) : M Container :=
  getOrInit e d.

Definition get (e : Entity) (d : ComponentDef) : M (option Container) :=
  λ σ,
    if present d (data_of e σ)
    then (Ok (Some (mkContainer e (def_constructor d) (def_id d))), σ)
    else (Ok None, σ).

Definition delete (e : Entity) (d : ComponentDef) : M unit :=
  λ σ,
    if present d (data_of e σ)
    then (Ok tt, set_data e (dematerialise d (data_of e σ)) σ)
    else (Ok tt, σ).

End Entity.

(** Modelled from the spec: the list containers' "push / length /
    to-sequence; movable variant adds move(from,to)".  A container of another
    class has none of these methods, so calling one is a [TypeError]. *)
Module Loro.

Definition toArray (c : Container) : M (list string) :=
  λ σ, match list_of c σ with
       | Some l => (Ok l, σ)
       | None => (Throw TypeError, σ)
       end.

Definition length (c : Container) : M Z :=
  λ σ, match list_of c σ with
       | Some l => (Ok (Z.of_nat (List.length l)), σ)
       | None => (Throw TypeError, σ)
       end.

Definition push (c : Container) (v : string) : M unit :=
  λ σ, match list_of c σ with
       | Some l => (Ok tt, store_list c (l ++ [v]) σ)
       | None => (Throw TypeError, σ)
       end.

(** Only [LoroMovableList] has [move]. *)
Definition move (c : Container) (from to : Z) : M unit :=
  λ σ, match class_of c, list_of c σ with
       | LoroMovableList, Some l =>
           match moved l from to with
           | Some l' => (Ok tt, store_list c l' σ)
           | None => (Throw Rejected, σ)
           end
       | _, _ => (Throw TypeError, σ)
       end.

(** [c instanceof LoroMovableList] *)
Definition instanceof_LoroMovableList (c : Container) : bool :=
  bool_decide (class_of c = LoroMovableList).

Definition insert (c : Container) (pos : Z) (v : string) : M unit :=
  λ σ, match list_of c σ with
       | Some l =>
           match inserted l pos v with
           | Some l' => (Ok tt, store_list c l' σ)
           | None => (Throw Rejected, σ)
           end
       | None => (Throw TypeError, σ)
       end.

Definition delete (c : Container) (pos len : Z) : M unit :=
  λ σ, match list_of c σ with
       | Some l =>
           match deleted l pos len with
           | Some l' => (Ok tt, store_list c l' σ)
           | None => (Throw Rejected, σ)
           end
       | None => (Throw TypeError, σ)
       end.

(** Modelled from the spec: the key-value map's "get/set by field name"; a
    field that was never set reads as [undefined] ([None]). *)
Definition get (c : Container) (field : string) : M (option string) :=
  λ σ, match fields_of c σ with
       | Some m => (Ok (m !! field), σ)
       | None => (Throw TypeError, σ)
       end.

Definition set (c : Container) (field value : string) : M unit :=
  λ σ, match fields_of c σ with
       | Some m => (Ok tt, store_fields c (<[field := value]> m) σ)
       | None => (Throw TypeError, σ)
       end.

End Loro.

(** ** The wrapper hierarchy ([index.ts]) *)

(** Modelled from the spec: a [Peer] is used here only to open entities by
    identifier; a failed open rejects. *)
Record Peer := mkPeer { open : string → Outcome Entity }.

(** The wrapper classes.  [Thread] is an alias of [Channel]. *)
Module Kind.
Inductive t :=
| EntityWrapper | Deletable | Administered | NamedEntity | EntityList
| Roomy | Space
| SidebarItem | Category | Channel | TimelineItem | Reactions | Message
| Announcement | Image.
Definition Thread := Channel.
End Kind.

Record Wrapper := mkWrapper {
  kind : Kind.t;
  peer : Peer;
  entity : Entity
}.

(** [new constructor(peer, entity)]: every constructor of the hierarchy only
    stores its arguments ([EntityList]'s two further fields are kept in
    [EntityList.t]). *)
Definition new (constructor : Kind.t) (p : Peer) (e : Entity) : M Wrapper :=
  ret (mkWrapper constructor p e).

Module EntityWrapper.

Definition cast (this : Wrapper) (constructor : Kind.t) : M Wrapper :=
  new constructor (peer this) (entity this).

Definition id (this : Wrapper) : string :=
  toString (entity_id (entity this)).

End EntityWrapper.

Module Administered.

Definition admins (this : Wrapper) : M Container :=
  Entity.getOrInit (entity this) components.Admins.

Definition appendAdminsFrom (this other : Wrapper) : M unit :=
  let* mine := admins this in
  let* currentAdmins := Loro.toArray mine in
  let* theirs := admins other in
  let* otherAdmins := Loro.toArray theirs in
  for_of otherAdmins (λ admin,
    if negb (array_includes currentAdmins admin)
    then let* mine := admins this in Loro.push mine admin
    else ret tt).

End Administered.

Module Deletable.

Definition softDeleted (this : Wrapper) : M bool :=
  Entity.has (entity this) components.SoftDeleted.

Definition set_softDeleted (this : Wrapper) (deleted : bool) : M unit :=
  if deleted
  then Entity.init (entity this) components.SoftDeleted ;; ret tt
  else Entity.delete (entity this) components.SoftDeleted.

End Deletable.

(** The fields read here hold strings; [None] is [undefined]. *)
Module NamedEntity.

Definition name (this : Wrapper) : M (option string) :=
  let* meta := Entity.getOrInit (entity this) components.BasicMeta in
  Loro.get meta "name".

Definition set_name (this : Wrapper) (name : string) : M unit :=
  let* meta := Entity.getOrInit (entity this) components.BasicMeta in
  Loro.set meta "name" name.

Definition description (this : Wrapper) : M (option string) :=
  let* meta := Entity.getOrInit (entity this) components.BasicMeta in
  Loro.get meta "description".

End NamedEntity.

Module EntityList.

(** An [EntityWrapper] with the two private fields [#def] and [#factory]. *)
Record t := mk {
  base : Wrapper;
  def : ComponentDef;
  factory : Kind.t
}.

Definition constructor (p : Peer) (e : Entity) (component : ComponentDef)
    (constructor : Kind.t) : t :=
  mk (mkWrapper Kind.EntityList p e) component constructor.

Definition ids (this : t) : M (list string) :=
  let* list := Entity.getOrInit (entity (base this)) (def this) in
  Loro.toArray list.

(** Every [peer.open] is started before any is awaited; the promise
    resolves to the wrappers in list order, or rejects. *)
Definition items (this : t) : M (list Wrapper) :=
  let* list := Entity.getOrInit (entity (base this)) (def this) in
  let* ents := Loro.toArray list in
  λ σ,
    (foldr (λ ent acc,
              match open (peer (base this)) ent, acc with
              | Ok e, Ok ws => Ok (mkWrapper (factory this) (peer (base this)) e :: ws)
              | _, _ => Throw Rejected
              end) (Ok []) ents, σ).

Definition push (this : t) (item : Wrapper) : M unit :=
  let* list := Entity.getOrInit (entity (base this)) (def this) in
  Loro.push list (toString (entity_id (entity item))).

Definition move (this : t) (itemIdx newIdx : Z) : M unit :=
  let* list := Entity.getOrInit (entity (base this)) (def this) in
  if Loro.instanceof_LoroMovableList list
  then Loro.move list itemIdx newIdx
  else throw (Thrown "Cannot use move function in an immovable list.").

Definition rawList (this : t) : M Container :=
  Entity.getOrInit (entity (base this)) (def this).

Definition length (this : t) : M Z :=
  let* list := Entity.getOrInit (entity (base this)) (def this) in
  Loro.length list.

Definition insert (this : t) (index : Z) (item : Wrapper) : M unit :=
  let* list := Entity.getOrInit (entity (base this)) (def this) in
  Loro.insert list index (toString (entity_id (entity item))).

Definition remove (this : t) (itemIdx : Z) : M unit :=
  let* list := Entity.getOrInit (entity (base this)) (def this) in
  Loro.delete list itemIdx 1.

Definition delete (this : t) : M unit :=
  Entity.delete (entity (base this)) (def this).

End EntityList.

Module Roomy.
Definition spaces (this : Wrapper) : EntityList.t :=
  EntityList.constructor (peer this) (entity this) components.Spaces Kind.Space.
End Roomy.

Module Message.
Definition images (this : Wrapper) : EntityList.t :=
  EntityList.constructor (peer this) (entity this) components.Images Kind.Image.
End Message.

Module Space.
Definition sidebarItems (this : Wrapper) : EntityList.t :=
  EntityList.constructor (peer this) (entity this)
    components.SpaceSidebarNavigation Kind.SidebarItem.
Definition channels (this : Wrapper) : EntityList.t :=
  EntityList.constructor (peer this) (entity this) components.Channels
    Kind.Channel.
Definition threads (this : Wrapper) : EntityList.t :=
  EntityList.constructor (peer this) (entity this) components.Threads
    Kind.Thread.
End Space.

Module Category.
Definition channels (this : Wrapper) : EntityList.t :=
  EntityList.constructor (peer this) (entity this) components.Channels
    Kind.Channel.
End Category.

Module Channel.
Definition messages (this : Wrapper) : EntityList.t :=
  EntityList.constructor (peer this) (entity this) components.Messages
    Kind.Message.
End Channel.

Module TimelineItem.

Definition reactions (this : Wrapper) : M Wrapper :=
  EntityWrapper.cast this Kind.Reactions.

(** The getter [replyTo]: [this.entity.get(ReplyTo)?.get("entity")]. *)
Definition replyTo (this : Wrapper) : M (option string) :=
  let* component := Entity.get (entity this) components.ReplyTo in
  match component with
  | Some map => Loro.get map "entity"
  | None => ret None
  end.

End TimelineItem.

Module Announcement.

Definition kind (this : Wrapper) : M (option string) :=
  let* c := Entity.getOrInit (entity this) components.ChannelAnnouncement in
  Loro.get c "kind".

Definition set_kind (this : Wrapper) (kind : string) : M unit :=
  let* c := Entity.getOrInit (entity this) components.ChannelAnnouncement in
  Loro.set c "kind" kind.

Definition relatedThreads (this : Wrapper) : EntityList.t :=
  EntityList.constructor (peer this) (entity this) components.Threads
    Kind.Thread.

Definition relatedMessages (this : Wrapper) : EntityList.t :=
  EntityList.constructor (peer this) (entity this) components.Messages
    Kind.Message.

End Announcement.

(** The string-valued accessors of [Image]. *)
Module Image.

Definition uri (this : Wrapper) : M (option string) :=
  let* c := Entity.getOrInit (entity this) components.ImageUri in
  Loro.get c "uri".

Definition set_uri (this : Wrapper) (uri : string) : M unit :=
  let* c := Entity.getOrInit (entity this) components.ImageUri in
  Loro.set c "uri" uri.

Definition alt (this : Wrapper) : M (option string) :=
  let* c := Entity.getOrInit (entity this) components.ImageUri in
  Loro.get c "alt".

Definition set_alt (this : Wrapper) (alt : string) : M unit :=
  let* c := Entity.getOrInit (entity this) components.ImageUri in
  Loro.set c "alt" alt.

End Image.

Module SidebarItem.

Definition type (this : Wrapper) : M string :=
  let* isMessages := Entity.has (entity this) components.Messages in
  if isMessages then ret "category"
  else
    let* isChannels := Entity.has (entity this) components.Channels in
    if isChannels then ret "channel"
    else throw (Thrown "Unknown sidebar item type").

(** [None] is the [undefined] a JavaScript function returns when it falls
    off its end. *)
Definition asChannel (this : Wrapper) : M (option Wrapper) :=
  let* ty := type this in
  if String.eqb ty "channel"
  then let* w := EntityWrapper.cast this Kind.Channel in ret (Some w)
  else ret None.

Definition asCategory (this : Wrapper) : M (option Wrapper) :=
  let* ty := type this in
  if String.eqb ty "category"
  then let* w := EntityWrapper.cast this Kind.Category in ret (Some w)
  else ret None.

End SidebarItem.

Module Reactions.

Definition ReactionsComponent := components.Reactions.

(** The body of the [for] loop of [all], run over the rest of the list:
    [reactions] is the object built so far.  An actor is [None] when the
    destructuring finds no second piece ([undefined]). *)
Fixpoint group (list : list string)
    (reactions : gmap string (gset (option string)))
  : Outcome (gmap string (gset (option string))) :=
  match list with
  | [] => Ok reactions
  | raw :: rest =>
      let pieces := split_space raw in
      let reaction := default "undefined" (pieces !! 0) in
      let user := pieces !! 1 in
      match reactions !! reaction with
      | Some actors => group rest (<[reaction := {[user]} ∪ actors]> reactions)
      | None =>
          if array_includes object_prototype_keys reaction
          then Throw TypeError
          else group rest (<[reaction := {[user]}]> reactions)
      end
  end.

Definition all (this : Wrapper)
  : M (gmap string (gset (option string))) :=
  let* component := Entity.getOrInit (entity this) ReactionsComponent in
  let* list := Loro.toArray component in
  λ σ, (group list ∅, σ).

Definition add (this : Wrapper) (reaction authorId : string) : M unit :=
  if includes reaction " " || includes authorId " "
  then throw (Error "Reaction and Author ID must not contain spaces.")
  else
    let raw := reaction +:+ " " +:+ authorId in
    let* component := Entity.getOrInit (entity this) ReactionsComponent in
    let* list := Loro.toArray component in
    if negb (array_includes list raw)
    then Loro.push component raw
    else ret tt.

Definition remove (this : Wrapper) (reaction authorId : string) : M unit :=
  if includes reaction " " || includes authorId " "
  then throw (Error "Reaction and Author ID must not contain spaces.")
  else
    let raw := reaction +:+ " " +:+ authorId in
    let* component := Entity.getOrInit (entity this) ReactionsComponent in
    let* list := Loro.toArray component in
    let idx := indexOf list raw in
    if negb (idx =? -1)%Z
    then Loro.delete component idx 1
    else ret tt.

End Reactions.

(** ** The earlier [EntityList] ([src/index.ts])

    There the list is always over a [LoroMovableList] component; [add] ends
    in [throw new Error("Unreachable")] and [move] has no guard. *)
Module EarlierEntityList.

Definition add (this : EntityList.t) (item : Wrapper) : M unit :=
  let* list :=
    Entity.getOrInit (entity (EntityList.base this)) (EntityList.def this) in
  Loro.push list (toString (entity_id (entity item))) ;;
  throw (Error "Unreachable").

Definition move (this : EntityList.t) (itemIdx newIdx : Z) : M unit :=
  let* list :=
    Entity.getOrInit (entity (EntityList.base this)) (EntityList.def this) in
  Loro.move list itemIdx newIdx.

End EarlierEntityList.

(** ** Vocabulary of the specification *)

(** The store after [getOrInit e d]: untouched when the component is there,
    otherwise with the materialised component. *)
Definition init_store (e : Entity) (d : ComponentDef) (σ : Store) : Store :=
  if present d (data_of e σ) then σ
  else set_data e (materialise d (data_of e σ)) σ.

(** The sequence read through a list component (empty while the component
    is absent). *)
Definition contents (e : Entity) (d : ComponentDef) (σ : Store) : list string :=
  default [] (list_in (data_of e σ) (def_constructor d) (def_id d)).

(** The sequence as stored: [None] while the component is absent. *)
Definition stored (e : Entity) (d : ComponentDef) (σ : Store)
  : option (list string) :=
  match def_constructor d with
  | LoroList => lists (data_of e σ) !! def_id d
  | LoroMovableList => movable_lists (data_of e σ) !! def_id d
  | _ => None
  end.

Definition is_list_kind (k : ContainerKind) : Prop :=
  k = LoroList ∨ k = LoroMovableList.

Definition contains_space (s : string) : Prop :=
  " "%char ∈ String.list_ascii_of_string s.

(** The packed form of a reaction record. *)
Definition encode (symbol actor : string) : string :=
  symbol +:+ " " +:+ actor.

Definition reactions_of (w : Wrapper) (σ : Store) : list string :=
  contents (entity w) Reactions.ReactionsComponent σ.

Definition admins_of (w : Wrapper) (σ : Store) : list string :=
  contents (entity w) components.Admins σ.

(** At most one packed entry for each (symbol, actor) pair. *)
Definition one_entry_per_pair (l : list string) : Prop :=
  ∀ symbol actor,
    (length (filter (λ raw, raw = encode symbol actor) l) ≤ 1)%nat.

(** A sequence of [add] calls, each run to its end (returning or raising)
    before the next. *)
Fixpoint add_all (w : Wrapper) (calls : list (string * string)) (σ : Store)
  : Store :=
  match calls with
  | [] => σ
  | (symbol, actor) :: rest =>
      add_all w rest (snd (Reactions.add w symbol actor σ))
  end.

(** The text before the first space (all of it when there is none), and
    the text after the first space (when there is one). *)
Fixpoint before_space (s : string) : string :=
  match s with
  | EmptyString => EmptyString
  | String c rest =>
      if Ascii.eqb c " "%char then EmptyString else String c (before_space rest)
  end.

Fixpoint after_space (s : string) : option string :=
  match s with
  | EmptyString => None
  | String c rest => if Ascii.eqb c " "%char then Some rest else after_space rest
  end.

(** The two fields [all] reads off an entry: the pieces before the first
    and between the first and the second space. *)
Definition first_field (raw : string) : string := before_space raw.
Definition second_field (raw : string) : option string :=
  before_space <$> after_space raw.

(** The grouping as the specification words it: an entry is cut at its first
    space only, and everything after it is the actor. *)
Definition all_by_first_space (l : list string)
  : gmap string (gset (option string)) :=
  foldl (λ m raw,
           <[before_space raw :=
               {[after_space raw]} ∪ default ∅ (m !! before_space raw)]> m)
        ∅ l.

(** [all]'s result reports [actor] under [symbol]. *)
Definition reports (m : gmap string (gset (option string)))
    (symbol : string) (actor : option string) : Prop :=
  ∃ actors, m !! symbol = Some actors ∧ actor ∈ actors.

(** The admin union as the specification words it: the existing list, then
    the identifiers of the other list that are new, each once, in order of
    first occurrence. *)
Fixpoint first_occurrences (seen l : list string) : list string :=
  match l with
  | [] => []
  | x :: rest =>
      if array_includes seen x then first_occurrences seen rest
      else x :: first_occurrences (x :: seen) rest
  end.

Definition ordered_union (a b : list string) : list string :=
  a ++ first_occurrences a b.

(** A computation leaves the list component behind it on the entity, as the
    empty list when it had to be created (so the store has changed). *)
Definition materialises {A} (L : EntityList.t) (m : M A) : Prop :=
  ∀ σ : Store,
    let e := entity (EntityList.base L) in
    let σ' := snd (m σ) in
    present (EntityList.def L) (data_of e σ') = true
    ∧ (present (EntityList.def L) (data_of e σ) = false → σ' ≠ σ)
    ∧ (present (EntityList.def L) (data_of e σ) = false →
       is_list_kind (def_constructor (EntityList.def L)) →
       stored e (EntityList.def L) σ' = Some []).

Definition immovable_fault : Exn :=
  Thrown "Cannot use move function in an immovable list.".

(** An entry as [add] writes it: a symbol and an actor without spaces. *)
Definition entry_well_formed (raw : string) : Prop :=
  ∃ symbol actor,
    ¬ contains_space symbol ∧ ¬ contains_space actor ∧ raw = encode symbol actor.

(** The place of a list component: its entity, class and identifier. *)
Definition place (e : Entity) (d : ComponentDef)
  : string * ContainerKind * string :=
  (toString (entity_id e), def_constructor d, def_id d).

(** The fields read through a map component: those stored, or those its
    initialiser sets while the component is absent. *)
Definition fields (e : Entity) (d : ComponentDef) (σ : Store)
  : gmap string string :=
  default (list_to_map (def_init d)) (maps (data_of e σ) !! def_id d).

(** ** Sample inputs *)

Definition entity_named (name : string) : Entity := mkEntity (mkEntityId name).

(** A peer on which every open succeeds. *)
Definition sample_peer : Peer := mkPeer (λ name, Ok (entity_named name)).

Definition wrapper_on (k : Kind.t) (name : string) : Wrapper :=
  mkWrapper k sample_peer (entity_named name).

(** An entity that holds [l] under the list component [d] and nothing
    else. *)
Definition holding (d : ComponentDef) (l : list string) : EntityData :=
  with_list no_components (def_constructor d) (def_id d) l.

(** ** Store lemmas *)

Lemma data_of_set_data (e : Entity) (d : EntityData) (σ : Store) :
  data_of e (set_data e d σ) = d.
Proof. unfold data_of, set_data. by rewrite lookup_insert_eq. Qed.

Lemma data_of_set_data_ne (e e' : Entity) (d : EntityData) (σ : Store) :
  toString (entity_id e) ≠ toString (entity_id e') →
  data_of e' (set_data e d σ) = data_of e' σ.
Proof. intros Hne. unfold data_of, set_data. by rewrite lookup_insert_ne. Qed.

Lemma data_of_same_id (e e' : Entity) (σ : Store) :
  toString (entity_id e) = toString (entity_id e') → data_of e σ = data_of e' σ.
Proof. intros Heq. unfold data_of. by rewrite Heq. Qed.

Lemma present_materialise (d : ComponentDef) (ed : EntityData) :
  present d (materialise d ed) = true.
Proof.
  unfold present, materialise.
  destruct (def_constructor d); simpl; apply bool_decide_eq_true;
    rewrite ?lookup_insert_eq; eauto; set_solver.
Qed.

Lemma list_in_materialise (d : ComponentDef) (ed : EntityData)
    (k : ContainerKind) (name : string) :
  present d ed = false → list_in (materialise d ed) k name = list_in ed k name.
Proof.
  unfold present, materialise, list_in. intros Habsent.
  destruct (def_constructor d), k; simpl; try done;
    apply bool_decide_eq_false in Habsent;
    (destruct (decide (def_id d = name)) as [<-|Hne];
     [ rewrite lookup_insert_eq;
       rewrite <- eq_None_not_Some in Habsent; by rewrite Habsent
     | by rewrite lookup_insert_ne ]).
Qed.

Lemma present_init_store (e : Entity) (d : ComponentDef) (σ : Store) :
  present d (data_of e (init_store e d σ)) = true.
Proof.
  unfold init_store. destruct (present d (data_of e σ)) eqn:Hp; [done|].
  rewrite data_of_set_data. apply present_materialise.
Qed.

Lemma list_in_init_store (e e' : Entity) (d : ComponentDef) (σ : Store)
    (k : ContainerKind) (name : string) :
  list_in (data_of e' (init_store e d σ)) k name = list_in (data_of e' σ) k name.
Proof.
  unfold init_store. destruct (present d (data_of e σ)) eqn:Hp; [done|].
  destruct (decide (toString (entity_id e) = toString (entity_id e'))) as [Heq|Hne].
  - rewrite <- (data_of_same_id e e' (set_data _ _ _)), <- (data_of_same_id e e' σ)
      by done.
    rewrite data_of_set_data. by apply list_in_materialise.
  - by rewrite data_of_set_data_ne.
Qed.

Lemma init_store_present (e : Entity) (d : ComponentDef) (σ : Store) :
  present d (data_of e σ) = true → init_store e d σ = σ.
Proof. unfold init_store. by intros ->. Qed.

Lemma getOrInit_run (e : Entity) (d : ComponentDef) (σ : Store) :
  Entity.getOrInit e d σ
  = (Ok (mkContainer e (def_constructor d) (def_id d)), init_store e d σ).
Proof.
  unfold Entity.getOrInit, init_store.
  by destruct (present d (data_of e σ)).
Qed.

Lemma contents_init_store (e e' : Entity) (d d' : ComponentDef) (σ : Store) :
  contents e' d' (init_store e d σ) = contents e' d' σ.
Proof. unfold contents. by rewrite list_in_init_store. Qed.

Lemma stored_init_store_absent (e : Entity) (d : ComponentDef) (σ : Store) :
  present d (data_of e σ) = false → is_list_kind (def_constructor d) →
  stored e d (init_store e d σ) = Some [].
Proof.
  intros Hp Hk. unfold init_store, stored. rewrite Hp, data_of_set_data.
  unfold materialise.
  destruct Hk as [-> | ->]; simpl; by rewrite lookup_insert_eq.
Qed.

(** ** Running the list methods *)

Lemma list_of_store_list (c : Container) (l : list string) (σ : Store) :
  is_list_kind (class_of c) → list_of c (store_list c l σ) = Some l.
Proof.
  intros Hk. unfold list_of, store_list. rewrite data_of_set_data.
  unfold list_in, with_list.
  destruct Hk as [-> | ->]; simpl; by rewrite lookup_insert_eq.
Qed.

Lemma list_of_getOrInit (e : Entity) (d : ComponentDef) (σ : Store) :
  is_list_kind (def_constructor d) →
  list_of (mkContainer e (def_constructor d) (def_id d)) (init_store e d σ)
  = Some (contents e d σ).
Proof.
  intros Hk. unfold list_of, contents. simpl. rewrite list_in_init_store.
  unfold list_in. by destruct Hk as [-> | ->].
Qed.

Lemma contents_store_list (e : Entity) (d : ComponentDef) (l : list string)
    (σ : Store) :
  is_list_kind (def_constructor d) →
  contents e d (store_list (mkContainer e (def_constructor d) (def_id d)) l σ) = l.
Proof.
  intros Hk. unfold contents.
  pose proof (list_of_store_list (mkContainer e (def_constructor d) (def_id d)) l σ Hk)
    as Hl.
  unfold list_of in Hl. simpl in Hl. by rewrite Hl.
Qed.

Lemma ids_run (L : EntityList.t) (σ : Store) :
  is_list_kind (def_constructor (EntityList.def L)) →
  EntityList.ids L σ
  = (Ok (contents (entity (EntityList.base L)) (EntityList.def L) σ),
     init_store (entity (EntityList.base L)) (EntityList.def L) σ).
Proof.
  intros Hk. unfold EntityList.ids, bind. rewrite getOrInit_run.
  unfold Loro.toArray. by rewrite list_of_getOrInit.
Qed.

Lemma getOrInit_push_run (e : Entity) (d : ComponentDef) (v : string)
    (σ : Store) :
  is_list_kind (def_constructor d) →
  ∃ σ', (let* c := Entity.getOrInit e d in Loro.push c v) σ = (Ok tt, σ')
        ∧ contents e d σ' = contents e d σ ++ [v].
Proof.
  intros Hk. unfold bind. rewrite getOrInit_run.
  unfold Loro.push. rewrite list_of_getOrInit by done.
  eexists; split; [reflexivity|]. by rewrite contents_store_list.
Qed.

Lemma push_run (L : EntityList.t) (item : Wrapper) (σ : Store) :
  is_list_kind (def_constructor (EntityList.def L)) →
  ∃ σ', EntityList.push L item σ = (Ok tt, σ')
        ∧ contents (entity (EntityList.base L)) (EntityList.def L) σ'
          = contents (entity (EntityList.base L)) (EntityList.def L) σ
            ++ [EntityWrapper.id item].
Proof. intros Hk. by apply getOrInit_push_run. Qed.

(** ** Casting *)

(** C1: for every wrapper, every wrapper kind and every store, [cast] returns
    (it never raises), leaves the store as it was, and yields a wrapper of the
    requested kind over the same entity and peer, hence with the same [id]. *)
Theorem cast_returns_same_entity (w : Wrapper) (T : Kind.t) (σ : Store) :
  ∃ w', EntityWrapper.cast w T σ = (Ok w', σ)
        ∧ EntityWrapper.id w' = EntityWrapper.id w
        ∧ entity w' = entity w
        ∧ peer w' = peer w
        ∧ kind w' = T.
Proof. by eexists. Qed.

(** ** The catalog *)

(** Leaving [Images] out, the identifiers of the catalog are pairwise
    distinct. *)
Lemma catalog_ids_distinct_but_Images :
  NoDup (def_id <$> (snd <$> filter (λ entry, entry.1 ≠ "Images")
                                    components.catalog)).
Proof. refine (bool_decide_unpack _ _). by vm_compute. Qed.

(** C2: the catalog entries [Images] and [Spaces] are distinct exports with
    one and the same identifier (and container class), so the list behind
    [Message.images] and the list behind [Roomy.spaces] on one entity are
    the same data: an identifier pushed through one is read through the
    other. *)
Theorem Images_and_Spaces_share_storage (w item : Wrapper) (σ : Store) :
  def_id components.Images = def_id components.Spaces
  ∧ fst ((EntityList.push (Roomy.spaces w) item ;;
          EntityList.ids (Message.images w)) σ)
    = Ok (contents (entity w) components.Spaces σ ++ [EntityWrapper.id item]).
Proof.
  split; [done|].
  destruct (push_run (Roomy.spaces w) item σ) as (σ' & Hrun & Hc);
    [by right|].
  unfold bind at 1. rewrite Hrun.
  rewrite ids_run by (by right). simpl. f_equal. exact Hc.
Qed.

(** The same collision is already in the earlier catalog. *)
Lemma earlier_catalog_collision :
  components.earlier_catalog_ids !! 4%nat
    = Some ("Images", "spaces:01JPE97AYAJSDP0NRAH79S9792")
  ∧ components.earlier_catalog_ids !! 5%nat
    = Some ("Spaces", "spaces:01JPE97AYAJSDP0NRAH79S9792").
Proof. done. Qed.

(** ** Sidebar items *)

Lemma type_run (w : Wrapper) (σ : Store) :
  SidebarItem.type w σ
  = (if present components.Messages (data_of (entity w) σ) then Ok "category"
     else if present components.Channels (data_of (entity w) σ) then Ok "channel"
     else Throw (Thrown "Unknown sidebar item type"), σ).
Proof.
  unfold SidebarItem.type, bind, Entity.has.
  destruct (present components.Messages _); [done|].
  by destruct (present components.Channels _).
Qed.

(** C5: [type] answers "category" when the entity has the [Messages]
    component, otherwise "channel" when it has the [Channels] component, and
    otherwise throws "Unknown sidebar item type".  It never writes to the
    store, and two sidebar items whose entities agree on the presence of these
    two components get the same answer. *)
Theorem type_by_component_presence (w : Wrapper) (σ : Store) :
  let hasMessages := present components.Messages (data_of (entity w) σ) in
  let hasChannels := present components.Channels (data_of (entity w) σ) in
  snd (SidebarItem.type w σ) = σ
  ∧ (hasMessages = true → fst (SidebarItem.type w σ) = Ok "category")
  ∧ (hasMessages = false → hasChannels = true →
     fst (SidebarItem.type w σ) = Ok "channel")
  ∧ (hasMessages = false → hasChannels = false →
     fst (SidebarItem.type w σ) = Throw (Thrown "Unknown sidebar item type"))
  ∧ (∀ (w' : Wrapper) (σ' : Store),
       present components.Messages (data_of (entity w') σ') = hasMessages →
       present components.Channels (data_of (entity w') σ') = hasChannels →
       fst (SidebarItem.type w' σ') = fst (SidebarItem.type w σ)).
Proof.
  simpl. rewrite type_run. simpl. repeat split.
  - by intros ->.
  - by intros -> ->.
  - by intros -> ->.
  - intros w' σ' HM HC. rewrite type_run. simpl. by rewrite HM, HC.
Qed.

(** The three cases of C5 are all inhabited: an entity holding a message
    list, one holding only a channel list, and one holding neither. *)
Lemma type_by_component_presence_witness :
  fst (SidebarItem.type (wrapper_on Kind.SidebarItem "m")
         {[ "m" := holding components.Messages [] ]}) = Ok "category"
  ∧ fst (SidebarItem.type (wrapper_on Kind.SidebarItem "c")
           {[ "c" := holding components.Channels [] ]}) = Ok "channel"
  ∧ fst (SidebarItem.type (wrapper_on Kind.SidebarItem "n") ∅)
    = Throw (Thrown "Unknown sidebar item type").
Proof.
  split; [|split].
  - apply (type_by_component_presence (wrapper_on Kind.SidebarItem "m")
             {[ "m" := holding components.Messages [] ]}).
    vm_compute. reflexivity.
  - apply (type_by_component_presence (wrapper_on Kind.SidebarItem "c")
             {[ "c" := holding components.Channels [] ]});
      vm_compute; reflexivity.
  - apply (type_by_component_presence (wrapper_on Kind.SidebarItem "n") ∅);
      vm_compute; reflexivity.
Defined.

(** When the discriminant is the other kind, the conversions return
    [undefined] and leave the store alone. *)
Lemma asChannel_of_category (w : Wrapper) (σ : Store) :
  fst (SidebarItem.type w σ) = Ok "category" →
  SidebarItem.asChannel w σ = (Ok None, σ).
Proof.
  unfold SidebarItem.asChannel, bind. rewrite type_run. simpl. by intros ->.
Qed.

Lemma asCategory_of_channel (w : Wrapper) (σ : Store) :
  fst (SidebarItem.type w σ) = Ok "channel" →
  SidebarItem.asCategory w σ = (Ok None, σ).
Proof.
  unfold SidebarItem.asCategory, bind. rewrite type_run. simpl. by intros ->.
Qed.

(** When the discriminant cannot be computed, both conversions throw what
    [type] throws. *)
Lemma conversions_propagate_type_fault (w : Wrapper) (σ : Store) (e : Exn) :
  fst (SidebarItem.type w σ) = Throw e →
  SidebarItem.asChannel w σ = (Throw e, σ)
  ∧ SidebarItem.asCategory w σ = (Throw e, σ).
Proof.
  unfold SidebarItem.asChannel, SidebarItem.asCategory, bind.
  rewrite type_run. simpl. by intros ->.
Qed.

(** C6, at the input where the code departs from it: on an entity with
    neither a [Messages] nor a [Channels] component, [asChannel] and
    [asCategory] do not return [undefined]; both throw "Unknown sidebar item
    type". *)
Theorem conversions_throw_without_components :
  SidebarItem.asChannel (wrapper_on Kind.SidebarItem "item") ∅
    = (Throw (Thrown "Unknown sidebar item type"), ∅)
  ∧ SidebarItem.asCategory (wrapper_on Kind.SidebarItem "item") ∅
    = (Throw (Thrown "Unknown sidebar item type"), ∅).
Proof. by apply conversions_propagate_type_fault. Qed.

(** ** Reactions: adding *)

Lemma includes_cons_space (c : ascii) (s : string) :
  includes (String c s) " "
  = (if ascii_dec " " c then true else false) || includes s " ".
Proof.
  cbn [includes String.prefix]. destruct (ascii_dec " " c); [|done].
  by destruct s.
Qed.

Lemma includes_space (s : string) :
  includes s " " = true ↔ contains_space s.
Proof.
  unfold contains_space. induction s as [|c s IH].
  - split; [done|]. by intros ?%elem_of_nil.
  - rewrite includes_cons_space. cbn [String.list_ascii_of_string].
    rewrite elem_of_cons, <- IH. destruct (ascii_dec " " c) as [<-|Hne].
    + split; [by left|done].
    + split; [by right|]. by intros [?|?].
Qed.

Lemma array_includes_elem_of (l : list string) (x : string) :
  array_includes l x = true ↔ x ∈ l.
Proof.
  unfold array_includes. rewrite existsb_exists. split.
  - intros (y & Hy%list_elem_of_In & ->%String.eqb_eq). done.
  - intros Hx. exists x. split; [by apply list_elem_of_In|apply String.eqb_refl].
Qed.

Lemma array_includes_not_elem_of (l : list string) (x : string) :
  array_includes l x = false ↔ x ∉ l.
Proof. rewrite <- array_includes_elem_of. by destruct (array_includes l x). Qed.

(** A non-empty reading means the list component is there. *)
Lemma present_of_contents (e : Entity) (d : ComponentDef) (σ : Store)
    (x : string) :
  x ∈ contents e d σ → present d (data_of e σ) = true.
Proof.
  unfold contents, present, list_in.
  destruct (def_constructor d); simpl;
    try (by intros ?%elem_of_nil);
    intros Hx; apply bool_decide_eq_true;
    match goal with |- is_Some ?o => destruct o end; eauto;
    by apply elem_of_nil in Hx.
Qed.

(** What [add] does once its arguments have passed the check. *)
Lemma add_accepted (w : Wrapper) (symbol actor : string) (σ : Store) :
  (includes symbol " " || includes actor " ") = false →
  (encode symbol actor ∈ reactions_of w σ
   ∧ Reactions.add w symbol actor σ = (Ok tt, σ))
  ∨ ((encode symbol actor ∉ reactions_of w σ)
     ∧ (∃ σ', Reactions.add w symbol actor σ = (Ok tt, σ')
              ∧ reactions_of w σ' = reactions_of w σ ++ [encode symbol actor])).
Proof.
  intros Hchk. unfold Reactions.add. rewrite Hchk. unfold bind.
  rewrite getOrInit_run. unfold Loro.toArray.
  rewrite list_of_getOrInit by (by left).
  fold (reactions_of w σ). fold (encode symbol actor).
  destruct (array_includes (reactions_of w σ) (encode symbol actor)) eqn:Hin;
    cbn [negb].
  - left. apply array_includes_elem_of in Hin. split; [done|].
    unfold ret. f_equal. apply init_store_present.
    by eapply present_of_contents.
  - right. apply array_includes_not_elem_of in Hin. split; [done|].
    unfold Loro.push. rewrite list_of_getOrInit by (by left).
    eexists; split; [reflexivity|].
    unfold reactions_of at 1.
    by rewrite (contents_store_list (entity w) Reactions.ReactionsComponent)
      by (by left).
Qed.

Lemma add_rejected (w : Wrapper) (symbol actor : string) (σ : Store) :
  (includes symbol " " || includes actor " ") = true →
  Reactions.add w symbol actor σ
  = (Throw (Error "Reaction and Author ID must not contain spaces."), σ).
Proof. intros Hchk. unfold Reactions.add. by rewrite Hchk. Qed.

Lemma check_passes_iff (symbol actor : string) :
  (includes symbol " " || includes actor " ") = false
  ↔ ¬ contains_space symbol ∧ ¬ contains_space actor.
Proof.
  rewrite orb_false_iff, <- !includes_space.
  destruct (includes symbol " "), (includes actor " ");
    split; intros [H1 H2]; try done; split; try done;
    intros _; by (apply H1 || apply H2).
Qed.

(** C3: [add] raises exactly when the symbol or the actor contains a space,
    and a call that raises leaves the whole store, hence the backing list,
    as it was. *)
Theorem add_raises_iff_space (w : Wrapper) (symbol actor : string) (σ : Store) :
  (raises (fst (Reactions.add w symbol actor σ))
   ↔ contains_space symbol ∨ contains_space actor)
  ∧ (raises (fst (Reactions.add w symbol actor σ)) →
     snd (Reactions.add w symbol actor σ) = σ
     ∧ reactions_of w (snd (Reactions.add w symbol actor σ)) = reactions_of w σ).
Proof.
  destruct (includes symbol " " || includes actor " ") eqn:Hchk.
  - rewrite add_rejected by done. simpl. split; [|done].
    split; [|by eexists]. intros _.
    apply orb_true_iff in Hchk. by rewrite <- !includes_space.
  - pose proof Hchk as [Hs Ha]%check_passes_iff.
    destruct (add_accepted w symbol actor σ Hchk)
      as [[_ ->] | [_ (σ' & -> & _)]]; simpl.
    + split; [split|]; [by intros [? ?] | by intros [?|?] | by intros [? ?]].
    + split; [split|]; [by intros [? ?] | by intros [?|?] | by intros [? ?]].
Qed.

(** A call that raises and a call that returns, for C3. *)
Lemma add_raises_iff_space_witness :
  snd (Reactions.add (wrapper_on Kind.Reactions "msg") "+1 x" "did:a"
         {[ "msg" := holding components.Reactions ["+1 did:b"] ]})
  = {[ "msg" := holding components.Reactions ["+1 did:b"] ]}.
Proof.
  apply (add_raises_iff_space (wrapper_on Kind.Reactions "msg") "+1 x" "did:a"
           {[ "msg" := holding components.Reactions ["+1 did:b"] ]}).
  vm_compute. by eexists.
Defined.

Lemma filter_eq_absent (l : list string) (x : string) :
  x ∉ l → filter (λ r, r = x) l = [].
Proof.
  induction l as [|y l IH]; [done|].
  intros [Hne Hl]%not_elem_of_cons. rewrite filter_cons_False by done. auto.
Qed.

Lemma one_entry_per_pair_snoc (l : list string) (raw : string) :
  raw ∉ l → one_entry_per_pair l → one_entry_per_pair (l ++ [raw]).
Proof.
  intros Hnew Hl symbol actor. rewrite filter_app, length_app.
  destruct (decide (raw = encode symbol actor)) as [Heq|Hne].
  - rewrite filter_cons_True by done. simpl.
    rewrite filter_eq_absent by (by rewrite <- Heq). done.
  - rewrite filter_cons_False by done. specialize (Hl symbol actor). simpl. lia.
Qed.

Lemma add_keeps_one_entry_per_pair (w : Wrapper) (symbol actor : string)
    (σ : Store) :
  one_entry_per_pair (reactions_of w σ) →
  one_entry_per_pair (reactions_of w (snd (Reactions.add w symbol actor σ))).
Proof.
  intros Hl. destruct (includes symbol " " || includes actor " ") eqn:Hchk.
  - by rewrite add_rejected.
  - destruct (add_accepted w symbol actor σ Hchk)
      as [[_ ->] | [Hnew (σ' & -> & Hσ')]]; simpl; [done|].
    rewrite Hσ'. by apply one_entry_per_pair_snoc.
Qed.

Lemma add_all_keeps_one_entry_per_pair (w : Wrapper)
    (calls : list (string * string)) (σ : Store) :
  one_entry_per_pair (reactions_of w σ) →
  one_entry_per_pair (reactions_of w (add_all w calls σ)).
Proof.
  revert σ. induction calls as [|[symbol actor] calls IH]; intros σ Hl; [done|].
  simpl. apply IH. by apply add_keeps_one_entry_per_pair.
Qed.

(** C4: for a symbol and an actor without spaces, [add] returns; when the
    packed entry is not in the list it is appended at the end, and when it is
    the store is left as it was.  Hence any sequence of [add] calls (whatever
    their arguments) keeps a list that has at most one entry per pair in
    that state. *)
Theorem add_appends_unless_present (w : Wrapper) (symbol actor : string)
    (σ : Store) :
  ¬ contains_space symbol → ¬ contains_space actor →
  (encode symbol actor ∉ reactions_of w σ →
   ∃ σ', Reactions.add w symbol actor σ = (Ok tt, σ')
         ∧ reactions_of w σ' = reactions_of w σ ++ [encode symbol actor])
  ∧ (encode symbol actor ∈ reactions_of w σ →
     Reactions.add w symbol actor σ = (Ok tt, σ))
  ∧ (∀ calls : list (string * string),
       one_entry_per_pair (reactions_of w σ) →
       one_entry_per_pair (reactions_of w (add_all w calls σ))).
Proof.
  intros Hs Ha.
  assert ((includes symbol " " || includes actor " ") = false) as Hchk
    by (by apply check_passes_iff).
  split; [|split].
  - intros Hnew. by destruct (add_accepted w symbol actor σ Hchk) as [[? _]|[_ ?]].
  - intros Hold. by destruct (add_accepted w symbol actor σ Hchk) as [[_ ?]|[? _]].
  - intros calls. apply add_all_keeps_one_entry_per_pair.
Qed.

Lemma add_appends_unless_present_witness :
  Reactions.add (wrapper_on Kind.Reactions "msg") "+1" "did:a"
    {[ "msg" := holding components.Reactions ["+1 did:a"] ]}
  = (Ok tt, {[ "msg" := holding components.Reactions ["+1 did:a"] ]}).
Proof.
  apply (add_appends_unless_present (wrapper_on Kind.Reactions "msg") "+1" "did:a"
           {[ "msg" := holding components.Reactions ["+1 did:a"] ]}).
  - refine (bool_decide_unpack _ _). by vm_compute.
  - refine (bool_decide_unpack _ _). by vm_compute.
  - refine (bool_decide_unpack _ _). by vm_compute.
Defined.

(** ** Merging admin lists *)

Lemma append_loop (this : Wrapper) (currentAdmins otherAdmins : list string)
    (σ : Store) :
  ∃ σ',
    for_of otherAdmins (λ admin,
      if negb (array_includes currentAdmins admin)
      then let* mine := Administered.admins this in Loro.push mine admin
      else ret tt) σ = (Ok tt, σ')
    ∧ admins_of this σ'
      = admins_of this σ ++ filter (λ x, x ∉ currentAdmins) otherAdmins.
Proof.
  revert σ. induction otherAdmins as [|x rest IH]; intros σ.
  - exists σ. split; [done|]. by rewrite filter_nil, app_nil_r.
  - cbn [for_of]. unfold bind at 1.
    destruct (array_includes currentAdmins x) eqn:Hin; cbn [negb].
    + apply array_includes_elem_of in Hin.
      destruct (IH σ) as (σ' & Hrun & Hσ'). exists σ'. split; [done|].
      rewrite filter_cons_False by (by intros ?). done.
    + apply array_includes_not_elem_of in Hin.
      destruct (getOrInit_push_run (entity this) components.Admins x σ)
        as (σ1 & Hpush & Hσ1); [by right|].
      unfold Administered.admins. rewrite Hpush.
      destruct (IH σ1) as (σ' & Hrun & Hσ'). exists σ'. split; [done|].
      rewrite filter_cons_True by done.
      unfold admins_of in *. rewrite Hσ', Hσ1. by rewrite <- app_assoc.
Qed.

(** What [appendAdminsFrom] computes, for all contents of the two lists
    (which may be one and the same list): the identifiers of the other list
    that are not in this list when the call starts are appended, in order,
    repetitions included. *)
Lemma appendAdminsFrom_run (this other : Wrapper) (σ : Store) :
  ∃ σ', Administered.appendAdminsFrom this other σ = (Ok tt, σ')
        ∧ admins_of this σ'
          = admins_of this σ
            ++ filter (λ x, x ∉ admins_of this σ) (admins_of other σ).
Proof.
  unfold Administered.appendAdminsFrom, Administered.admins.
  unfold bind at 1. rewrite getOrInit_run.
  unfold bind at 1. unfold Loro.toArray at 1.
  rewrite list_of_getOrInit by (by right).
  unfold bind at 1. rewrite getOrInit_run.
  unfold bind at 1. unfold Loro.toArray at 1.
  rewrite list_of_getOrInit by (by right).
  rewrite contents_init_store.
  destruct (append_loop this (contents (entity this) components.Admins σ)
              (contents (entity other) components.Admins σ)
              (init_store (entity other) components.Admins
                 (init_store (entity this) components.Admins σ)))
    as (σ' & Hrun & Hσ').
  exists σ'. split; [exact Hrun|].
  rewrite Hσ'. unfold admins_of. by rewrite !contents_init_store.
Qed.

Lemma filter_ext_elem (P Q : string → Prop) `{!∀ x, Decision (P x)}
    `{!∀ x, Decision (Q x)} (l : list string) :
  (∀ x, x ∈ l → (P x ↔ Q x)) → filter P l = filter Q l.
Proof.
  induction l as [|y l IH]; intros Hext; [done|].
  rewrite !filter_cons.
  rewrite IH by (intros x Hx; apply Hext; by right).
  pose proof (Hext y (list_elem_of_here _ _)) as [HPQ HQP].
  destruct (decide (P y)) as [HP|HP], (decide (Q y)) as [HQ|HQ]; try done.
  - by destruct (HQ (HPQ HP)).
  - by destruct (HP (HQP HQ)).
Qed.

Lemma first_occurrences_NoDup (seen l : list string) :
  NoDup l → first_occurrences seen l = filter (λ x, x ∉ seen) l.
Proof.
  revert seen. induction l as [|x rest IH]; intros seen Hnd; [done|].
  apply NoDup_cons in Hnd as [Hx Hrest]. cbn [first_occurrences].
  destruct (array_includes seen x) eqn:Hin.
  - apply array_includes_elem_of in Hin.
    rewrite filter_cons_False by (by intros ?). by apply IH.
  - apply array_includes_not_elem_of in Hin.
    rewrite filter_cons_True by done. f_equal.
    rewrite IH by done. apply filter_ext_elem.
    intros y Hy. rewrite not_elem_of_cons. split; [by intros [_ ?]|].
    intros Hys. split; [|done]. by intros ->.
Qed.

(** On a source list without repetitions, [appendAdminsFrom] is the ordered
    union. *)
Lemma appendAdminsFrom_union (this other : Wrapper) (σ : Store) :
  NoDup (admins_of other σ) →
  admins_of this (snd (Administered.appendAdminsFrom this other σ))
  = ordered_union (admins_of this σ) (admins_of other σ).
Proof.
  intros Hnd. destruct (appendAdminsFrom_run this other σ) as (σ' & Hrun & Hσ').
  rewrite Hrun. cbn [snd]. rewrite Hσ'.
  unfold ordered_union. by rewrite first_occurrences_NoDup.
Qed.

(** C7, at the input where the code departs from it: with no admins on A and
    the list ["z"; "z"] on B, [A.appendAdminsFrom(B)] leaves ["z"; "z"] on A,
    where the ordered union of the two lists is ["z"]: the membership test
    reads the copy of A's list taken before the loop, which the pushes do
    not update. *)
Theorem appendAdminsFrom_repeats_repeated_source :
  admins_of (wrapper_on Kind.Administered "A")
    (snd (Administered.appendAdminsFrom
            (wrapper_on Kind.Administered "A") (wrapper_on Kind.Administered "B")
            {[ "B" := holding components.Admins ["z"; "z"] ]}))
  = ["z"; "z"]
  ∧ ordered_union [] ["z"; "z"] = ["z"].
Proof. split; by vm_compute. Qed.

(** The union of the specification's own example, on which the code agrees
    with it. *)
Example appendAdminsFrom_xy_yz :
  admins_of (wrapper_on Kind.Administered "A")
    (snd (Administered.appendAdminsFrom
            (wrapper_on Kind.Administered "A") (wrapper_on Kind.Administered "B")
            {[ "A" := holding components.Admins ["x"; "y"];
               "B" := holding components.Admins ["y"; "z"] ]}))
  = ["x"; "y"; "z"].
Proof. by vm_compute. Qed.

(** ** Reactions: decoding *)

Lemma Ok_inj {A} (a b : A) : Ok a = Ok b → a = b.
Proof. by intros [= ->]. Qed.

Lemma split_space_fields (raw : string) :
  split_space raw !! 0%nat = Some (first_field raw)
  ∧ split_space raw !! 1%nat = second_field raw.
Proof.
  unfold first_field, second_field.
  induction raw as [|c rest [IH0 IH1]]; [done|].
  cbn [split_space before_space after_space].
  destruct (Ascii.eqb c " "); [split; [done|exact IH0]|].
  destruct (split_space rest) as [|piece pieces]; [done|].
  injection IH0 as ->. split; [done|exact IH1].
Qed.

Lemma second_field_single_space (raw suffix : string) :
  after_space raw = Some suffix → ¬ contains_space suffix →
  second_field raw = Some suffix.
Proof.
  intros Hafter Hfree. unfold second_field. rewrite Hafter. simpl. f_equal.
  clear Hafter. unfold contains_space in Hfree.
  induction suffix as [|c s IH]; [done|].
  cbn [before_space]. cbn [String.list_ascii_of_string] in Hfree.
  apply not_elem_of_cons in Hfree as [Hc Hs].
  destruct (Ascii.eqb_spec c " ") as [->|_]; [done|]. by rewrite IH.
Qed.

Lemma reports_insert_new (m : gmap string (gset (option string)))
    (reaction : string) (user : option string) (symbol : string)
    (actor : option string) :
  m !! reaction = None →
  reports (<[reaction := {[user]}]> m) symbol actor
  ↔ reports m symbol actor ∨ (reaction = symbol ∧ user = actor).
Proof.
  intros Hnone. unfold reports. split.
  - intros (A & HA & Hin). destruct (decide (reaction = symbol)) as [<-|Hne].
    + rewrite lookup_insert_eq in HA. injection HA as <-.
      apply elem_of_singleton in Hin. by right.
    + rewrite lookup_insert_ne in HA by done. left. by exists A.
  - intros [(A & HA & Hin) | [<- <-]].
    + exists A. split; [|done]. rewrite lookup_insert_ne; [done|].
      intros <-. by rewrite Hnone in HA.
    + exists {[user]}. split; [apply lookup_insert_eq|by apply elem_of_singleton].
Qed.

Lemma reports_insert_old (m : gmap string (gset (option string)))
    (reaction : string) (user : option string) (actors : gset (option string))
    (symbol : string) (actor : option string) :
  m !! reaction = Some actors →
  reports (<[reaction := {[user]} ∪ actors]> m) symbol actor
  ↔ reports m symbol actor ∨ (reaction = symbol ∧ user = actor).
Proof.
  intros Hsome. unfold reports. split.
  - intros (A & HA & Hin). destruct (decide (reaction = symbol)) as [<-|Hne].
    + rewrite lookup_insert_eq in HA. injection HA as <-.
      apply elem_of_union in Hin as [Hin%elem_of_singleton | Hin].
      * by right.
      * left. by exists actors.
    + rewrite lookup_insert_ne in HA by done. left. by exists A.
  - intros [(A & HA & Hin) | [<- <-]].
    + destruct (decide (reaction = symbol)) as [<-|Hne].
      * exists ({[user]} ∪ actors). split; [apply lookup_insert_eq|].
        rewrite Hsome in HA. injection HA as <-. set_solver.
      * exists A. by rewrite lookup_insert_ne.
    + exists ({[user]} ∪ actors). split; [apply lookup_insert_eq|set_solver].
Qed.

(** One turn of the loop of [all] on an entry whose first field is not an
    inherited property: the entry's two fields are added to the object. *)
Lemma group_cons (raw : string) (rest : list string)
    (m : gmap string (gset (option string))) :
  first_field raw ∉ object_prototype_keys →
  ∃ m1, Reactions.group (raw :: rest) m = Reactions.group rest m1
        ∧ (∀ symbol actor,
             reports m1 symbol actor
             ↔ reports m symbol actor
               ∨ (first_field raw = symbol ∧ second_field raw = actor))
        ∧ (∀ symbol,
             is_Some (m1 !! symbol)
             ↔ first_field raw = symbol ∨ is_Some (m !! symbol)).
Proof.
  intros Hraw%array_includes_not_elem_of. cbn [Reactions.group].
  destruct (split_space_fields raw) as [-> ->].
  change (default "undefined" (Some (first_field raw))) with (first_field raw).
  destruct (m !! first_field raw) as [actors|] eqn:Hlook.
  - eexists. split; [reflexivity|]. split.
    + intros symbol actor. by apply reports_insert_old.
    + intros symbol. rewrite lookup_insert_is_Some.
      destruct (decide (first_field raw = symbol)); intuition.
  - rewrite Hraw. eexists. split; [reflexivity|]. split.
    + intros symbol actor. by apply reports_insert_new.
    + intros symbol. rewrite lookup_insert_is_Some.
      destruct (decide (first_field raw = symbol)); intuition.
Qed.

(** The loop of [all], from any object built so far. *)
Lemma group_run (l : list string) (m : gmap string (gset (option string))) :
  Forall (λ raw, first_field raw ∉ object_prototype_keys) l →
  ∃ m', Reactions.group l m = Ok m'
        ∧ (∀ symbol actor,
             reports m' symbol actor
             ↔ reports m symbol actor
               ∨ ∃ raw, raw ∈ l ∧ first_field raw = symbol
                        ∧ second_field raw = actor)
        ∧ (∀ symbol,
             is_Some (m' !! symbol)
             ↔ is_Some (m !! symbol)
               ∨ ∃ raw, raw ∈ l ∧ first_field raw = symbol).
Proof.
  revert m. induction l as [|raw rest IH]; intros m Hl.
  - exists m. split; [done|]. split.
    + intros symbol actor. split; [by left|].
      intros [?|(? & ?%elem_of_nil & _)]; done.
    + intros symbol. split; [by left|].
      intros [?|(? & ?%elem_of_nil & _)]; done.
  - apply Forall_cons in Hl as [Hraw Hrest].
    destruct (group_cons raw rest m Hraw) as (m1 & -> & Hrep1 & Hdom1).
    destruct (IH m1 Hrest) as (m' & Hrun & Hrep & Hdom).
    exists m'. split; [done|]. split.
    + intros symbol actor. rewrite Hrep, Hrep1. split.
      * intros [[?|[<- <-]] | (r & ? & ? & ?)]; [by left| |].
        -- right. exists raw. by split; [left|].
        -- right. exists r. by split; [right|].
      * intros [?|(r & [->|?]%elem_of_cons & <- & <-)].
        -- by left; left.
        -- by left; right.
        -- right. by exists r.
    + intros symbol. rewrite Hdom, Hdom1. split.
      * intros [[<-|?] | (r & ? & ?)].
        -- right. exists raw. by split; [left|].
        -- by left.
        -- right. exists r. by split; [right|].
      * intros [?|(r & [->|?]%elem_of_cons & <-)].
        -- by left; right.
        -- by left; left.
        -- right. by exists r.
Qed.

Lemma all_run (w : Wrapper) (σ : Store) :
  Reactions.all w σ
  = (Reactions.group (reactions_of w σ) ∅,
     init_store (entity w) Reactions.ReactionsComponent σ).
Proof.
  unfold Reactions.all, bind. rewrite getOrInit_run.
  unfold Loro.toArray. by rewrite list_of_getOrInit by (by left).
Qed.

(** C8, as the code has it: when no entry's first field is the name of a
    property inherited from [Object.prototype], [all] returns a mapping whose
    symbols are the first fields of the entries and in which a symbol's
    actors are the second fields of the entries with that first field.  The
    first field is the text before the first space; the second is the text
    between the first and the second space ([undefined] without a space), so
    it is the whole text after the first space exactly when that text has no
    further space.  The list is read, not changed. *)
Theorem all_groups_first_two_fields (w : Wrapper) (σ : Store) :
  Forall (λ raw, first_field raw ∉ object_prototype_keys) (reactions_of w σ) →
  ∃ m, fst (Reactions.all w σ) = Ok m
       ∧ reactions_of w (snd (Reactions.all w σ)) = reactions_of w σ
       ∧ (∀ symbol actor,
            reports m symbol actor
            ↔ ∃ raw, raw ∈ reactions_of w σ ∧ first_field raw = symbol
                     ∧ second_field raw = actor)
       ∧ (∀ symbol,
            is_Some (m !! symbol)
            ↔ ∃ raw, raw ∈ reactions_of w σ ∧ first_field raw = symbol)
       ∧ (∀ raw suffix,
            raw ∈ reactions_of w σ → after_space raw = Some suffix →
            ¬ contains_space suffix →
            reports m (first_field raw) (Some suffix)).
Proof.
  intros Hl. rewrite all_run. cbn [fst snd].
  destruct (group_run (reactions_of w σ) ∅ Hl) as (m & Hrun & Hrep & Hdom).
  exists m. split; [done|]. split.
  { unfold reactions_of. by rewrite contents_init_store. }
  assert (∀ symbol actor,
            reports m symbol actor
            ↔ ∃ raw, raw ∈ reactions_of w σ ∧ first_field raw = symbol
                     ∧ second_field raw = actor) as Hrep'.
  { intros symbol actor. rewrite Hrep. split; [|by right].
    intros [(A & HA & _)|?]; [|done]. by rewrite lookup_empty in HA. }
  split; [done|]. split.
  - intros symbol. rewrite Hdom. split; [|by right].
    intros [[? HA]|?]; [|done]. by rewrite lookup_empty in HA.
  - intros raw suffix Hin Hafter Hfree. apply Hrep'. exists raw.
    split; [done|]. split; [done|]. by apply second_field_single_space.
Qed.

Lemma all_groups_first_two_fields_witness :
  ∃ m, fst (Reactions.all (wrapper_on Kind.Reactions "msg")
              {[ "msg" := holding components.Reactions
                            ["+1 did:a"; "+1 did:b"; "-1 did:a"] ]}) = Ok m
       ∧ reports m "+1" (Some "did:b").
Proof.
  destruct (all_groups_first_two_fields (wrapper_on Kind.Reactions "msg")
              {[ "msg" := holding components.Reactions
                            ["+1 did:a"; "+1 did:b"; "-1 did:a"] ]})
    as (m & Hm & _ & Hrep & _).
  - refine (bool_decide_unpack _ _). by vm_compute.
  - exists m. split; [exact Hm|]. apply Hrep. exists "+1 did:b".
    split; [|done]. refine (bool_decide_unpack _ _). by vm_compute.
Defined.

(** C8 as stated fails on an entry with two spaces: from ["a b c"], [all]
    reports the actor "b" under "a", where cutting at the first space only
    gives the actor "b c". *)
Lemma all_cuts_actor_at_second_space :
  fst (Reactions.all (wrapper_on Kind.Reactions "msg")
         {[ "msg" := holding components.Reactions ["a b c"] ]})
  = Ok {[ "a" := {[ Some "b" ]} ]}
  ∧ all_by_first_space ["a b c"] = {[ "a" := {[ Some "b c" ]} ]}
  ∧ fst (Reactions.all (wrapper_on Kind.Reactions "msg")
           {[ "msg" := holding components.Reactions ["a b c"] ]})
    ≠ Ok (all_by_first_space ["a b c"]).
Proof.
  assert (fst (Reactions.all (wrapper_on Kind.Reactions "msg")
                 {[ "msg" := holding components.Reactions ["a b c"] ]})
          = Ok ({[ "a" := {[ Some "b" ]} ]}
                  : gmap string (gset (option string)))) as Hcode
    by (by vm_compute).
  assert (all_by_first_space ["a b c"] = {[ "a" := {[ Some "b c" ]} ]}) as Hspec
    by (by vm_compute).
  split; [done|]. split; [done|].
  rewrite Hcode, Hspec. intros Heq.
  assert (reports {[ "a" := {[ Some "b" ]} ]} "a" (Some "b c")) as (A & HA & Hin).
  { apply Ok_inj in Heq. rewrite Heq. exists {[ Some "b c" ]}.
    split; [apply lookup_singleton_eq|by apply elem_of_singleton]. }
  rewrite lookup_singleton_eq in HA. injection HA as <-.
  by apply elem_of_singleton in Hin.
Qed.

(** An entry whose first field names an inherited property makes [all]
    throw: the object lookup finds the inherited value, which has no [add]. *)
Example all_on_inherited_key :
  fst (Reactions.all (wrapper_on Kind.Reactions "msg")
         {[ "msg" := holding components.Reactions ["toString did:a"] ]})
  = Throw TypeError.
Proof. by vm_compute. Qed.

(** ** Entity lists: moving *)

Lemma move_run_immovable (L : EntityList.t) (itemIdx newIdx : Z) (σ : Store) :
  def_constructor (EntityList.def L) ≠ LoroMovableList →
  EntityList.move L itemIdx newIdx σ
  = (Throw immovable_fault,
     init_store (entity (EntityList.base L)) (EntityList.def L) σ).
Proof.
  intros Hk. unfold EntityList.move, bind. rewrite getOrInit_run.
  unfold Loro.instanceof_LoroMovableList. cbn [class_of].
  by rewrite bool_decide_eq_false_2.
Qed.

Lemma move_run_movable (L : EntityList.t) (itemIdx newIdx : Z) (σ : Store) :
  def_constructor (EntityList.def L) = LoroMovableList →
  let e := entity (EntityList.base L) in
  let d := EntityList.def L in
  EntityList.move L itemIdx newIdx σ
  = match moved (contents e d σ) itemIdx newIdx with
    | Some l' =>
        (Ok tt,
         store_list (mkContainer e LoroMovableList (def_id d)) l'
           (init_store e d σ))
    | None => (Throw Rejected, init_store e d σ)
    end.
Proof.
  intros Hk e d. unfold EntityList.move, bind. rewrite getOrInit_run.
  unfold Loro.instanceof_LoroMovableList. cbn [class_of].
  rewrite bool_decide_eq_true_2 by done.
  unfold Loro.move. rewrite list_of_getOrInit by (by right).
  cbn [class_of]. subst e d. rewrite Hk. by destruct (moved _ _ _).
Qed.

(** C9: on a list whose container is the immovable [LoroList], every call
    of [move] throws "Cannot use move function in an immovable list."; the
    sequence read through any list component of any entity is what it was,
    and the store itself is untouched when the component was already there
    (otherwise the empty list has been materialised before the throw).  On a
    [LoroMovableList] the call does not end in this fault. *)
Theorem move_rejected_on_immovable (L : EntityList.t) (itemIdx newIdx : Z)
    (σ : Store) :
  let e := entity (EntityList.base L) in
  let d := EntityList.def L in
  (def_constructor d = LoroList →
   fst (EntityList.move L itemIdx newIdx σ) = Throw immovable_fault
   ∧ (∀ e' d', contents e' d' (snd (EntityList.move L itemIdx newIdx σ))
               = contents e' d' σ)
   ∧ (present d (data_of e σ) = true →
      snd (EntityList.move L itemIdx newIdx σ) = σ))
  ∧ (def_constructor d = LoroMovableList →
     fst (EntityList.move L itemIdx newIdx σ) ≠ Throw immovable_fault).
Proof.
  intros e d. split.
  - intros Hk. rewrite move_run_immovable by (fold d; by rewrite Hk).
    cbn [fst snd]. split; [done|]. split.
    + intros e' d'. apply contents_init_store.
    + apply init_store_present.
  - intros Hk. rewrite move_run_movable by done.
    by destruct (moved _ _ _).
Qed.

Lemma move_rejected_on_immovable_witness :
  fst (EntityList.move
         (EntityList.constructor sample_peer (entity_named "msg")
            components.Reactions Kind.Message) 0 1
         {[ "msg" := holding components.Reactions ["+1 did:a"; "+1 did:b"] ]})
  = Throw immovable_fault
  ∧ fst (EntityList.move (Roomy.spaces (wrapper_on Kind.Roomy "catalog")) 0 1
           {[ "catalog" := holding components.Spaces ["s1"; "s2"] ]})
    ≠ Throw immovable_fault.
Proof.
  split.
  - apply (move_rejected_on_immovable
             (EntityList.constructor sample_peer (entity_named "msg")
                components.Reactions Kind.Message) 0 1
             {[ "msg" := holding components.Reactions ["+1 did:a"; "+1 did:b"] ]}).
    reflexivity.
  - apply (move_rejected_on_immovable
             (Roomy.spaces (wrapper_on Kind.Roomy "catalog")) 0 1
             {[ "catalog" := holding components.Spaces ["s1"; "s2"] ]}).
    reflexivity.
Defined.

(** A move inside a movable list. *)
Example move_on_spaces :
  contents (entity_named "catalog") components.Spaces
    (snd (EntityList.move (Roomy.spaces (wrapper_on Kind.Roomy "catalog")) 0 2
            {[ "catalog" := holding components.Spaces ["s1"; "s2"; "s3"] ]}))
  = ["s2"; "s3"; "s1"].
Proof. by vm_compute. Qed.

(** ** Entity lists: reading *)

Lemma ids_store (L : EntityList.t) (σ : Store) :
  snd (EntityList.ids L σ)
  = init_store (entity (EntityList.base L)) (EntityList.def L) σ.
Proof.
  unfold EntityList.ids, bind. rewrite getOrInit_run.
  unfold Loro.toArray. by destruct (list_of _ _).
Qed.

Lemma length_store (L : EntityList.t) (σ : Store) :
  snd (EntityList.length L σ)
  = init_store (entity (EntityList.base L)) (EntityList.def L) σ.
Proof.
  unfold EntityList.length, bind. rewrite getOrInit_run.
  unfold Loro.length. by destruct (list_of _ _).
Qed.

Lemma items_store (L : EntityList.t) (σ : Store) :
  snd (EntityList.items L σ)
  = init_store (entity (EntityList.base L)) (EntityList.def L) σ.
Proof.
  unfold EntityList.items, bind. rewrite getOrInit_run.
  unfold Loro.toArray. by destruct (list_of _ _).
Qed.

Lemma rawList_store (L : EntityList.t) (σ : Store) :
  snd (EntityList.rawList L σ)
  = init_store (entity (EntityList.base L)) (EntityList.def L) σ.
Proof. unfold EntityList.rawList. by rewrite getOrInit_run. Qed.

Lemma materialises_of_init_store {A} (L : EntityList.t) (m : M A) :
  (∀ σ, snd (m σ)
        = init_store (entity (EntityList.base L)) (EntityList.def L) σ) →
  materialises L m.
Proof.
  intros Hm σ. cbn zeta. rewrite Hm. split; [apply present_init_store|]. split.
  - intros Habsent Heq.
    pose proof (present_init_store (entity (EntityList.base L))
                  (EntityList.def L) σ) as Hp.
    rewrite Heq in Hp. congruence.
  - apply stored_init_store_absent.
Qed.

(** C10: each of [ids], [length], [items] and [rawList] leaves the list
    component on the owning entity: after the read the entity has it, and
    when it was absent before, the read has changed the store by creating it
    as the empty list. *)
Theorem reads_materialise_component (L : EntityList.t) :
  materialises L (EntityList.ids L)
  ∧ materialises L (EntityList.length L)
  ∧ materialises L (EntityList.items L)
  ∧ materialises L (EntityList.rawList L).
Proof.
  split; [|split; [|split]]; apply materialises_of_init_store; intros σ.
  - apply ids_store.
  - apply length_store.
  - apply items_store.
  - apply rawList_store.
Qed.

Lemma reads_materialise_component_witness :
  stored (entity_named "catalog") components.Spaces
    (snd (EntityList.ids (Roomy.spaces (wrapper_on Kind.Roomy "catalog")) ∅))
  = Some []
  ∧ stored (entity_named "catalog") components.Spaces ∅ = None.
Proof.
  split; [|reflexivity].
  apply (reads_materialise_component
           (Roomy.spaces (wrapper_on Kind.Roomy "catalog"))).
  - reflexivity.
  - by right.
Defined.

(** ** Reactions: removing *)

Lemma indexOf_absent (l : list string) (x : string) :
  x ∉ l → indexOf l x = (-1)%Z.
Proof.
  induction l as [|y l IH]; [done|].
  intros [Hne Hl]%not_elem_of_cons. cbn [indexOf].
  destruct (String.eqb_spec y x) as [->|_]; [done|].
  by rewrite IH.
Qed.

Lemma indexOf_first (l1 l2 : list string) (x : string) :
  x ∉ l1 → indexOf (l1 ++ x :: l2) x = Z.of_nat (length l1).
Proof.
  induction l1 as [|y l1 IH]; intros Hx.
  - cbn [app indexOf]. by rewrite String.eqb_refl.
  - apply not_elem_of_cons in Hx as [Hne Hl1]. cbn [app indexOf].
    destruct (String.eqb_spec y x) as [->|_]; [done|].
    rewrite IH by done. cbn [length].
    destruct (Z.ltb_spec (Z.of_nat (length l1)) 0); lia.
Qed.

Lemma deleted_middle (l1 l2 : list string) (x : string) :
  deleted (l1 ++ x :: l2) (Z.of_nat (length l1)) 1 = Some (l1 ++ l2).
Proof.
  unfold deleted.
  assert ((0 <=? Z.of_nat (length l1))%Z && (0 <=? 1)%Z
          && (Z.of_nat (length l1) + 1 <=? Z.of_nat (length (l1 ++ x :: l2)))%Z
          = true) as ->.
  { rewrite length_app. cbn [length].
    repeat (apply andb_true_intro; split); apply Z.leb_le; lia. }
  rewrite Nat2Z.id, take_app_length. f_equal. f_equal.
  replace (Z.to_nat (Z.of_nat (length l1) + 1)) with (length l1 + 1) by lia.
  by rewrite drop_app_add.
Qed.

(** What [remove] does once its arguments have passed the check. *)
Lemma remove_accepted (w : Wrapper) (symbol actor : string) (σ : Store) :
  (includes symbol " " || includes actor " ") = false →
  ((encode symbol actor ∉ reactions_of w σ)
   ∧ Reactions.remove w symbol actor σ
     = (Ok tt, init_store (entity w) Reactions.ReactionsComponent σ))
  ∨ (∃ l1 l2,
       reactions_of w σ = l1 ++ encode symbol actor :: l2
       ∧ (encode symbol actor ∉ l1)
       ∧ Reactions.remove w symbol actor σ
         = (Ok tt,
            store_list
              (mkContainer (entity w) LoroList
                 (def_id Reactions.ReactionsComponent)) (l1 ++ l2) σ)).
Proof.
  intros Hchk. unfold Reactions.remove. rewrite Hchk. unfold bind.
  rewrite getOrInit_run. unfold Loro.toArray.
  rewrite list_of_getOrInit by (by left).
  fold (reactions_of w σ). fold (encode symbol actor).
  destruct (decide (encode symbol actor ∈ reactions_of w σ)) as [Hin|Hout].
  - right. pose proof Hin as (l1 & l2 & Hl & Hl1)%list_elem_of_split_l.
    exists l1, l2. split; [done|]. split; [done|].
    rewrite init_store_present by (by eapply present_of_contents).
    rewrite Hl, indexOf_first by done.
    destruct (Z.eqb_spec (Z.of_nat (length l1)) (-1)) as [?|_]; [lia|].
    cbn [negb]. unfold Loro.delete.
    assert (list_of (mkContainer (entity w)
                       (def_constructor Reactions.ReactionsComponent)
                       (def_id Reactions.ReactionsComponent)) σ
            = Some (l1 ++ encode symbol actor :: l2)) as ->.
    { rewrite <- Hl. unfold reactions_of.
      rewrite <- (list_of_getOrInit _ _ σ) by (by left).
      by rewrite init_store_present by (by eapply present_of_contents). }
    by rewrite deleted_middle.
  - left. split; [done|]. by rewrite indexOf_absent.
Qed.

Lemma remove_rejected (w : Wrapper) (symbol actor : string) (σ : Store) :
  (includes symbol " " || includes actor " ") = true →
  Reactions.remove w symbol actor σ
  = (Throw (Error "Reaction and Author ID must not contain spaces."), σ).
Proof. intros Hchk. unfold Reactions.remove. by rewrite Hchk. Qed.

Lemma reactions_of_store_list (w : Wrapper) (l : list string) (σ : Store) :
  reactions_of w
    (store_list (mkContainer (entity w) LoroList
                   (def_id Reactions.ReactionsComponent)) l σ) = l.
Proof.
  unfold reactions_of.
  by rewrite (contents_store_list (entity w) Reactions.ReactionsComponent)
    by (by left).
Qed.

(** X1: [remove] raises exactly when the symbol or the actor contains a
    space, and a call that raises leaves the whole store as it was. *)
Theorem remove_raises_iff_space (w : Wrapper) (symbol actor : string)
    (σ : Store) :
  (raises (fst (Reactions.remove w symbol actor σ))
   ↔ contains_space symbol ∨ contains_space actor)
  ∧ (raises (fst (Reactions.remove w symbol actor σ)) →
     snd (Reactions.remove w symbol actor σ) = σ).
Proof.
  destruct (includes symbol " " || includes actor " ") eqn:Hchk.
  - rewrite remove_rejected by done. simpl. split; [|done].
    split; [|by eexists]. intros _.
    apply orb_true_iff in Hchk. by rewrite <- !includes_space.
  - pose proof Hchk as [Hs Ha]%check_passes_iff.
    destruct (remove_accepted w symbol actor σ Hchk)
      as [[_ ->] | (l1 & l2 & _ & _ & ->)]; simpl.
    + split; [split|]; [by intros [? ?] | by intros [?|?] | by intros [? ?]].
    + split; [split|]; [by intros [? ?] | by intros [?|?] | by intros [? ?]].
Qed.

(** X2: for a symbol and an actor without spaces, [remove] returns; it takes
    out the first entry equal to the packed pair and nothing else, and when
    there is no such entry the list reads as before (the store itself is
    untouched if the component was there). *)
Theorem remove_deletes_first_match (w : Wrapper) (symbol actor : string)
    (σ : Store) :
  ¬ contains_space symbol → ¬ contains_space actor →
  fst (Reactions.remove w symbol actor σ) = Ok tt
  ∧ (∀ l1 l2,
       reactions_of w σ = l1 ++ encode symbol actor :: l2 →
       encode symbol actor ∉ l1 →
       reactions_of w (snd (Reactions.remove w symbol actor σ)) = l1 ++ l2)
  ∧ (encode symbol actor ∉ reactions_of w σ →
     reactions_of w (snd (Reactions.remove w symbol actor σ)) = reactions_of w σ
     ∧ (present Reactions.ReactionsComponent (data_of (entity w) σ) = true →
        snd (Reactions.remove w symbol actor σ) = σ)).
Proof.
  intros Hs Ha.
  assert ((includes symbol " " || includes actor " ") = false) as Hchk
    by (by apply check_passes_iff).
  destruct (remove_accepted w symbol actor σ Hchk)
    as [[Hout ->] | (k1 & k2 & Hl & Hk1 & ->)]; cbn [fst snd].
  - split; [done|]. split.
    + intros l1 l2 Hl _. destruct Hout. rewrite Hl.
      apply elem_of_app. right. by left.
    + intros _. split.
      * unfold reactions_of. by rewrite contents_init_store.
      * apply init_store_present.
  - split; [done|]. split.
    + intros l1 l2 Hl' Hl1. rewrite reactions_of_store_list.
      rewrite Hl in Hl'.
      assert (length k1 = length l1) as Hlen.
      { destruct (Nat.lt_trichotomy (length k1) (length l1)) as [Hlt|[?|Hlt]];
          [|done|]; exfalso.
        - apply Hl1. apply list_elem_of_lookup. exists (length k1).
          apply (f_equal (λ l, l !! length k1)) in Hl'.
          rewrite lookup_app_r, Nat.sub_diag in Hl' by done.
          by rewrite lookup_app_l in Hl' by done.
        - apply Hk1. apply list_elem_of_lookup. exists (length l1).
          apply (f_equal (λ l, l !! length l1)) in Hl'.
          rewrite (lookup_app_r l1), Nat.sub_diag in Hl' by done.
          by rewrite lookup_app_l in Hl' by done. }
      apply app_inj_1 in Hl' as [-> [= ->]]; done.
    + intros Hout. destruct Hout. rewrite Hl. apply elem_of_app. right. by left.
Qed.

Lemma remove_deletes_first_match_witness :
  reactions_of (wrapper_on Kind.Reactions "msg")
    (snd (Reactions.remove (wrapper_on Kind.Reactions "msg") "+1" "did:a"
            {[ "msg" := holding components.Reactions
                          ["-1 did:b"; "+1 did:a"; "+1 did:c"] ]}))
  = ["-1 did:b"] ++ ["+1 did:c"].
Proof.
  apply (remove_deletes_first_match (wrapper_on Kind.Reactions "msg") "+1" "did:a"
           {[ "msg" := holding components.Reactions
                         ["-1 did:b"; "+1 did:a"; "+1 did:c"] ]}).
  - refine (bool_decide_unpack _ _). by vm_compute.
  - refine (bool_decide_unpack _ _). by vm_compute.
  - reflexivity.
  - refine (bool_decide_unpack _ _). by vm_compute.
Defined.

(** X3: adding a pair that is not in the list and then removing it gives
    back the list that was there. *)
Theorem add_then_remove_restores (w : Wrapper) (symbol actor : string)
    (σ : Store) :
  ¬ contains_space symbol → ¬ contains_space actor →
  encode symbol actor ∉ reactions_of w σ →
  fst ((Reactions.add w symbol actor ;; Reactions.remove w symbol actor) σ)
  = Ok tt
  ∧ reactions_of w
      (snd ((Reactions.add w symbol actor ;; Reactions.remove w symbol actor) σ))
    = reactions_of w σ.
Proof.
  intros Hs Ha Hnew.
  assert ((includes symbol " " || includes actor " ") = false) as Hchk
    by (by apply check_passes_iff).
  destruct (add_accepted w symbol actor σ Hchk)
    as [[Hin _] | [_ (σ1 & Hadd & Hσ1)]]; [done|].
  unfold bind. rewrite Hadd.
  destruct (remove_accepted w symbol actor σ1 Hchk)
    as [[Hout _] | (l1 & l2 & Hl & Hl1 & ->)].
  - destruct Hout. rewrite Hσ1. apply elem_of_app. right. by left.
  - cbn [fst snd]. split; [done|]. rewrite reactions_of_store_list.
    rewrite Hσ1 in Hl.
    destruct l2 as [|y l2 _] using rev_ind.
    + apply app_inj_tail in Hl as [-> _]. by rewrite app_nil_r.
    + rewrite app_comm_cons, app_assoc in Hl.
      apply app_inj_tail in Hl as [Hl _].
      destruct Hnew. rewrite Hl. apply elem_of_app. right. by left.
Qed.

Lemma add_then_remove_restores_witness :
  reactions_of (wrapper_on Kind.Reactions "msg")
    (snd ((Reactions.add (wrapper_on Kind.Reactions "msg") "+1" "did:a" ;;
           Reactions.remove (wrapper_on Kind.Reactions "msg") "+1" "did:a")
            {[ "msg" := holding components.Reactions ["-1 did:b"] ]}))
  = reactions_of (wrapper_on Kind.Reactions "msg")
      {[ "msg" := holding components.Reactions ["-1 did:b"] ]}.
Proof.
  apply (add_then_remove_restores (wrapper_on Kind.Reactions "msg") "+1" "did:a"
           {[ "msg" := holding components.Reactions ["-1 did:b"] ]}).
  - refine (bool_decide_unpack _ _). by vm_compute.
  - refine (bool_decide_unpack _ _). by vm_compute.
  - refine (bool_decide_unpack _ _). by vm_compute.
Defined.

(** X4: a second [add] with the same arguments has the outcome of the first
    and changes nothing: whatever the arguments and the store, the store
    after the first call is a fixed point of the call. *)
Theorem add_twice_is_add_once (w : Wrapper) (symbol actor : string) (σ : Store) :
  Reactions.add w symbol actor (snd (Reactions.add w symbol actor σ))
  = (fst (Reactions.add w symbol actor σ), snd (Reactions.add w symbol actor σ)).
Proof.
  destruct (includes symbol " " || includes actor " ") eqn:Hchk.
  - by rewrite !add_rejected by done.
  - destruct (add_accepted w symbol actor σ Hchk)
      as [[_ Hadd] | [_ (σ1 & Hadd & Hσ1)]]; rewrite Hadd; cbn [fst snd].
    + done.
    + destruct (add_accepted w symbol actor σ1 Hchk)
        as [[_ ?] | [Hout _]]; [done|].
      destruct Hout. rewrite Hσ1. apply elem_of_app. right. by left.
Qed.

(** ** Reactions: what is written is what is read *)

Lemma not_contains_space_cons (c : ascii) (s : string) :
  ¬ contains_space (String c s) ↔ Ascii.eqb c " " = false ∧ ¬ contains_space s.
Proof.
  unfold contains_space. cbn [String.list_ascii_of_string].
  rewrite not_elem_of_cons. destruct (Ascii.eqb_spec c " ") as [->|Hne].
  - split; [by intros [? _]|by intros [? _]].
  - split; [by intros [_ ?]|]. intros [_ ?]. split; [|done]. by intros <-.
Qed.

Lemma split_space_free (s : string) :
  ¬ contains_space s → split_space s = [s].
Proof.
  induction s as [|c s IH]; [done|].
  intros [Hc Hs]%not_contains_space_cons. cbn [split_space].
  by rewrite Hc, IH.
Qed.

Lemma split_space_encode (symbol actor : string) :
  ¬ contains_space symbol →
  split_space (encode symbol actor) = symbol :: split_space actor.
Proof.
  unfold encode. induction symbol as [|c s IH]; [done|].
  intros [Hc Hs]%not_contains_space_cons.
  simpl. by rewrite Hc, IH.
Qed.

Lemma fields_of_encode (symbol actor : string) :
  ¬ contains_space symbol → ¬ contains_space actor →
  first_field (encode symbol actor) = symbol
  ∧ second_field (encode symbol actor) = Some actor.
Proof.
  intros Hs Ha.
  destruct (split_space_fields (encode symbol actor)) as [H0 H1].
  rewrite split_space_encode, split_space_free in H0, H1 by done.
  split; [by injection H0|done].
Qed.

(** X5: cutting at spaces undoes the packing: for a symbol and an actor
    without spaces, [split(" ")] of the entry that [add] writes is exactly
    the two of them. *)
Theorem split_of_packed_pair (symbol actor : string) :
  ¬ contains_space symbol → ¬ contains_space actor →
  split_space (symbol +:+ " " +:+ actor) = [symbol; actor].
Proof.
  intros Hs Ha. fold (encode symbol actor).
  by rewrite split_space_encode, split_space_free.
Qed.

Lemma split_of_packed_pair_witness :
  split_space ("+1" +:+ " " +:+ "did:a") = ["+1"; "did:a"].
Proof.
  apply (split_of_packed_pair "+1" "did:a");
    refine (bool_decide_unpack _ _); by vm_compute.
Defined.

(** X6: the packing is injective on pairs whose symbols have no space: two
    such pairs with one packed entry are the same pair. *)
Theorem packed_pair_injective (symbol actor symbol' actor' : string) :
  ¬ contains_space symbol → ¬ contains_space symbol' →
  symbol +:+ " " +:+ actor = symbol' +:+ " " +:+ actor' →
  symbol = symbol' ∧ actor = actor'.
Proof.
  revert symbol'. induction symbol as [|c s IH]; intros [|c' s'] Hs Hs' Heq.
  - by injection Heq.
  - exfalso. apply not_contains_space_cons in Hs' as [Hc' _].
    injection Heq as <- _. done.
  - exfalso. apply not_contains_space_cons in Hs as [Hc _].
    injection Heq as -> _. done.
  - apply not_contains_space_cons in Hs as [_ Hs].
    apply not_contains_space_cons in Hs' as [_ Hs'].
    injection Heq as -> Heq. by destruct (IH s' Hs Hs' Heq) as [-> ->].
Qed.

Lemma packed_pair_injective_witness :
  "+1" = "+1" ∧ "did:a" = "did:a".
Proof.
  apply (packed_pair_injective "+1" "did:a" "+1" "did:a");
    [refine (bool_decide_unpack _ _); by vm_compute
    |refine (bool_decide_unpack _ _); by vm_compute
    |reflexivity].
Defined.

(** X7: what [add] writes, [all] reads back: after adding a pair without
    spaces whose symbol is not an inherited property name, to a list none of
    whose entries has such a first field, [all] returns and reports the actor
    under the symbol. *)
Theorem all_reports_added (w : Wrapper) (symbol actor : string) (σ : Store) :
  ¬ contains_space symbol → ¬ contains_space actor →
  symbol ∉ object_prototype_keys →
  Forall (λ raw, first_field raw ∉ object_prototype_keys) (reactions_of w σ) →
  ∃ m, fst ((Reactions.add w symbol actor ;; Reactions.all w) σ) = Ok m
       ∧ reports m symbol (Some actor).
Proof.
  intros Hs Ha Hkey Hl.
  assert ((includes symbol " " || includes actor " ") = false) as Hchk
    by (by apply check_passes_iff).
  destruct (fields_of_encode symbol actor Hs Ha) as [Hf0 Hf1].
  assert (∃ σ1, Reactions.add w symbol actor σ = (Ok tt, σ1)
                ∧ encode symbol actor ∈ reactions_of w σ1
                ∧ Forall (λ raw, first_field raw ∉ object_prototype_keys)
                    (reactions_of w σ1)) as (σ1 & Hadd & Hin & Hl1).
  { destruct (add_accepted w symbol actor σ Hchk)
      as [[Hin Hadd] | [_ (σ1 & Hadd & Hσ1)]].
    - by exists σ.
    - exists σ1. split; [done|]. rewrite Hσ1. split.
      + apply elem_of_app. right. by left.
      + apply Forall_app. split; [done|]. apply Forall_singleton.
        by rewrite Hf0. }
  unfold bind. rewrite Hadd, all_run. cbn [fst].
  destruct (group_run (reactions_of w σ1) ∅ Hl1) as (m & Hrun & Hrep & _).
  exists m. split; [done|]. apply Hrep. right. by exists (encode symbol actor).
Qed.

Lemma all_reports_added_witness :
  ∃ m, fst ((Reactions.add (wrapper_on Kind.Reactions "msg") "+1" "did:a" ;;
             Reactions.all (wrapper_on Kind.Reactions "msg"))
              {[ "msg" := holding components.Reactions ["-1 did:b"] ]}) = Ok m
       ∧ reports m "+1" (Some "did:a").
Proof.
  apply (all_reports_added (wrapper_on Kind.Reactions "msg") "+1" "did:a"
           {[ "msg" := holding components.Reactions ["-1 did:b"] ]});
    refine (bool_decide_unpack _ _); by vm_compute.
Defined.

Lemma well_formed_entry_fields (l : list string) (symbol actor : string) :
  Forall entry_well_formed l →
  ¬ contains_space symbol → ¬ contains_space actor →
  encode symbol actor ∉ l →
  ¬ ∃ raw, raw ∈ l ∧ first_field raw = symbol ∧ second_field raw = Some actor.
Proof.
  intros Hwf Hs Ha Hout (raw & Hin & Hf0 & Hf1).
  rewrite Forall_forall in Hwf.
  destruct (Hwf raw Hin) as (s' & a' & Hs' & Ha' & ->).
  destruct (fields_of_encode s' a' Hs' Ha') as [Hg0 Hg1].
  rewrite Hg0 in Hf0. rewrite Hg1 in Hf1. injection Hf1 as ->. by subst.
Qed.

(** X8: what [remove] takes out, [all] no longer reports.  On a list of
    entries as [add] writes them, with at most one entry per pair and no
    inherited property name as a symbol, removing a pair without spaces and
    then reading gives a mapping that does not report the actor under the
    symbol and reports every other pair exactly as the list before had it. *)
Theorem all_forgets_removed (w : Wrapper) (symbol actor : string) (σ : Store) :
  ¬ contains_space symbol → ¬ contains_space actor →
  Forall entry_well_formed (reactions_of w σ) →
  one_entry_per_pair (reactions_of w σ) →
  Forall (λ raw, first_field raw ∉ object_prototype_keys) (reactions_of w σ) →
  ∃ m, fst ((Reactions.remove w symbol actor ;; Reactions.all w) σ) = Ok m
       ∧ ¬ reports m symbol (Some actor)
       ∧ (∀ symbol' actor',
            (symbol', actor') ≠ (symbol, Some actor) →
            reports m symbol' actor'
            ↔ ∃ raw, raw ∈ reactions_of w σ ∧ first_field raw = symbol'
                     ∧ second_field raw = actor').
Proof.
  intros Hs Ha Hwf Hone Hkeys.
  assert ((includes symbol " " || includes actor " ") = false) as Hchk
    by (by apply check_passes_iff).
  destruct (fields_of_encode symbol actor Hs Ha) as [Hf0 Hf1].
  assert (∃ σ1, Reactions.remove w symbol actor σ = (Ok tt, σ1)
                ∧ (encode symbol actor ∉ reactions_of w σ1)
                ∧ (∀ raw, raw ∈ reactions_of w σ
                          ↔ raw = encode symbol actor
                              ∧ encode symbol actor ∈ reactions_of w σ
                            ∨ raw ∈ reactions_of w σ1))
    as (σ1 & Hrem & Hout & Hmem).
  { destruct (remove_accepted w symbol actor σ Hchk)
      as [[Hout Hrem] | (l1 & l2 & Hl & Hl1 & Hrem)].
    - eexists. split; [exact Hrem|]. unfold reactions_of in *.
      rewrite contents_init_store. split; [done|].
      intros raw. split; [by right|]. by intros [[-> ?]|?].
    - eexists. split; [exact Hrem|]. rewrite reactions_of_store_list.
      assert (encode symbol actor ∉ l2) as Hl2.
      { specialize (Hone symbol actor). rewrite Hl, filter_app in Hone.
        rewrite filter_cons_True, length_app in Hone by done.
        cbn [length] in Hone.
        apply (filter_nil_not_elem_of (λ r, r = encode symbol actor)); [|done].
        apply length_zero_iff_nil. lia. }
      split; [by intros [?|?]%elem_of_app|].
      intros raw. rewrite Hl, !elem_of_app, elem_of_cons. split.
      + intros [?|[->|?]]; [by right; left| |by right; right].
        left. split; [done|]. right. by left.
      + intros [[-> _]|[?|?]]; [right; by left|by left|right; by right]. }
  assert (Forall entry_well_formed (reactions_of w σ1)
          ∧ Forall (λ raw, first_field raw ∉ object_prototype_keys)
              (reactions_of w σ1)) as [Hwf1 Hkeys1].
  { rewrite !Forall_forall in *. split; intros raw Hin.
    - apply Hwf, Hmem. by right.
    - apply Hkeys, Hmem. by right. }
  unfold bind. rewrite Hrem, all_run. cbn [fst].
  destruct (group_run (reactions_of w σ1) ∅ Hkeys1) as (m & Hrun & Hrep & _).
  assert (∀ s a, reports m s a
                 ↔ ∃ raw, raw ∈ reactions_of w σ1 ∧ first_field raw = s
                          ∧ second_field raw = a) as Hrep1.
  { intros s a. rewrite Hrep. split; [|by right].
    intros [(A & HA & _)|?]; [|done]. by rewrite lookup_empty in HA. }
  exists m. split; [done|]. split.
  - rewrite Hrep1. by apply well_formed_entry_fields.
  - intros s' a' Hne. rewrite Hrep1. split.
    + intros (raw & Hin & ? & ?). exists raw. split; [|done].
      apply Hmem. by right.
    + intros (raw & Hin & <- & <-).
      apply Hmem in Hin as [[-> _]|Hin]; [|by exists raw].
      destruct Hne. by rewrite Hf0, Hf1.
Qed.

Lemma all_forgets_removed_witness :
  ∃ m, fst ((Reactions.remove (wrapper_on Kind.Reactions "msg") "+1" "did:a" ;;
             Reactions.all (wrapper_on Kind.Reactions "msg"))
              {[ "msg" := holding components.Reactions
                            ["+1 did:a"; "+1 did:b"] ]}) = Ok m
       ∧ ¬ reports m "+1" (Some "did:a").
Proof.
  destruct (all_forgets_removed (wrapper_on Kind.Reactions "msg") "+1" "did:a"
              {[ "msg" := holding components.Reactions
                            ["+1 did:a"; "+1 did:b"] ]})
    as (m & Hm & Hnot & _).
  - refine (bool_decide_unpack _ _). by vm_compute.
  - refine (bool_decide_unpack _ _). by vm_compute.
  - change (Forall entry_well_formed ["+1 did:a"; "+1 did:b"]).
    repeat apply Forall_cons_2; [| |apply Forall_nil_2].
    + exists "+1", "did:a".
      repeat split; try reflexivity;
        refine (bool_decide_unpack _ _); by vm_compute.
    + exists "+1", "did:b".
      repeat split; try reflexivity;
        refine (bool_decide_unpack _ _); by vm_compute.
  - change (one_entry_per_pair ["+1 did:a"; "+1 did:b"]).
    intros s a. rewrite !filter_cons, filter_nil.
    repeat case_decide; cbn [length]; try lia.
    exfalso. congruence.
  - refine (bool_decide_unpack _ _). by vm_compute.
  - by exists m.
Defined.

(** The loop of [all] throws on a list with an entry whose first field is an
    inherited property name, as long as the object has no such own key. *)
Lemma group_throws (l : list string) (m : gmap string (gset (option string))) :
  (∀ k, k ∈ object_prototype_keys → m !! k = None) →
  Exists (λ raw, first_field raw ∈ object_prototype_keys) l →
  Reactions.group l m = Throw TypeError.
Proof.
  revert m. induction l as [|raw rest IH]; intros m Hm Hex.
  - by apply Exists_nil in Hex.
  - destruct (decide (first_field raw ∈ object_prototype_keys)) as [Hin|Hout].
    + cbn [Reactions.group].
      destruct (split_space_fields raw) as [-> _].
      change (default "undefined" (Some (first_field raw)))
        with (first_field raw).
      rewrite (Hm _ Hin).
      by apply array_includes_elem_of in Hin as ->.
    + apply Exists_cons in Hex as [?|Hex]; [done|].
      destruct (group_cons raw rest m Hout) as (m1 & -> & _ & Hdom1).
      apply IH; [|done]. intros k Hk. apply eq_None_not_Some.
      rewrite Hdom1. intros [Heq|Hsome]; [by rewrite <- Heq in Hk|].
      rewrite (Hm k Hk) in Hsome. by destruct Hsome.
Qed.

Lemma grouping_unique (l l' : list string)
    (m m' : gmap string (gset (option string))) :
  (∀ raw, raw ∈ l ↔ raw ∈ l') →
  (∀ s a, reports m s a
          ↔ reports (∅ : gmap string (gset (option string))) s a
            ∨ ∃ raw, raw ∈ l ∧ first_field raw = s ∧ second_field raw = a) →
  (∀ s, is_Some (m !! s)
        ↔ is_Some ((∅ : gmap string (gset (option string))) !! s)
          ∨ ∃ raw, raw ∈ l ∧ first_field raw = s) →
  (∀ s a, reports m' s a
          ↔ reports (∅ : gmap string (gset (option string))) s a
            ∨ ∃ raw, raw ∈ l' ∧ first_field raw = s ∧ second_field raw = a) →
  (∀ s, is_Some (m' !! s)
        ↔ is_Some ((∅ : gmap string (gset (option string))) !! s)
          ∨ ∃ raw, raw ∈ l' ∧ first_field raw = s) →
  m = m'.
Proof.
  intros Hll Hrep Hdom Hrep' Hdom'.
  assert (∀ s a, reports m s a ↔ reports m' s a) as Hsame.
  { intros s a. rewrite Hrep, Hrep'.
    split; (intros [?|(raw & ? & ?)]; [by left|]; right; exists raw;
            split; [by apply Hll|done]). }
  assert (∀ s, is_Some (m !! s) ↔ is_Some (m' !! s)) as Hsamedom.
  { intros s. rewrite Hdom, Hdom'.
    split; (intros [?|(raw & ? & ?)]; [by left|]; right; exists raw;
            split; [by apply Hll|done]). }
  apply map_eq. intros s.
  destruct (m !! s) as [A|] eqn:HA, (m' !! s) as [A'|] eqn:HA'.
  - f_equal. apply set_eq. intros a. split; intros Hin.
    + destruct (proj1 (Hsame s a)) as (B & HB & ?); [by exists A|].
      rewrite HA' in HB. by injection HB as <-.
    + destruct (proj2 (Hsame s a)) as (B & HB & ?); [by exists A'|].
      rewrite HA in HB. by injection HB as <-.
  - destruct (proj1 (Hsamedom s)) as [? Hx]; [by rewrite HA|].
    by rewrite HA' in Hx.
  - destruct (proj2 (Hsamedom s)) as [? Hx]; [by rewrite HA'|].
    by rewrite HA in Hx.
  - done.
Qed.

(** X9: the outcome of [all] depends only on which entries the list holds,
    not on their order or on how often each occurs: two reaction lists with
    the same entries give the same mapping, or both make [all] throw. *)
Theorem all_depends_on_entry_set (w w' : Wrapper) (σ σ' : Store) :
  (∀ raw, raw ∈ reactions_of w σ ↔ raw ∈ reactions_of w' σ') →
  fst (Reactions.all w σ) = fst (Reactions.all w' σ').
Proof.
  intros Hll. rewrite !all_run. cbn [fst].
  destruct (decide (Forall (λ raw, first_field raw ∉ object_prototype_keys)
                      (reactions_of w σ))) as [Hl|Hl].
  - assert (Forall (λ raw, first_field raw ∉ object_prototype_keys)
              (reactions_of w' σ')) as Hl'.
    { rewrite !Forall_forall in *. intros raw Hin. by apply Hl, Hll. }
    destruct (group_run _ ∅ Hl) as (m & -> & Hrep & Hdom).
    destruct (group_run _ ∅ Hl') as (m' & -> & Hrep' & Hdom').
    f_equal. by eapply grouping_unique.
  - apply not_Forall_Exists in Hl; [|apply _].
    assert (Exists (λ raw, first_field raw ∈ object_prototype_keys)
              (reactions_of w σ)) as Hex.
    { apply Exists_exists in Hl as (raw & Hin & Hnot). apply Exists_exists.
      exists raw. split; [done|]. simpl in Hnot.
      by destruct (decide (first_field raw ∈ object_prototype_keys)). }
    assert (Exists (λ raw, first_field raw ∈ object_prototype_keys)
              (reactions_of w' σ')) as Hex'.
    { apply Exists_exists in Hex as (raw & Hin & ?). apply Exists_exists.
      exists raw. split; [by apply Hll|done]. }
    by rewrite !group_throws by (done || intros; apply lookup_empty).
Qed.

Lemma all_depends_on_entry_set_witness :
  fst (Reactions.all (wrapper_on Kind.Reactions "m1")
         {[ "m1" := holding components.Reactions
                      ["+1 did:a"; "-1 did:b"; "+1 did:a"] ]})
  = fst (Reactions.all (wrapper_on Kind.Reactions "m2")
           {[ "m2" := holding components.Reactions ["-1 did:b"; "+1 did:a"] ]}).
Proof.
  apply (all_depends_on_entry_set
           (wrapper_on Kind.Reactions "m1") (wrapper_on Kind.Reactions "m2")
           {[ "m1" := holding components.Reactions
                        ["+1 did:a"; "-1 did:b"; "+1 did:a"] ]}
           {[ "m2" := holding components.Reactions ["-1 did:b"; "+1 did:a"] ]}).
  intros raw.
  change (raw ∈ ["+1 did:a"; "-1 did:b"; "+1 did:a"]
          ↔ raw ∈ ["-1 did:b"; "+1 did:a"]).
  rewrite !elem_of_cons, !elem_of_nil. tauto.
Defined.

(** ** Writes stay in their place *)

Lemma list_in_with_list_ne (ed : EntityData) (k k' : ContainerKind)
    (name name' : string) (l : list string) :
  (k', name') ≠ (k, name) →
  list_in (with_list ed k name l) k' name' = list_in ed k' name'.
Proof.
  intros Hne. unfold list_in, with_list.
  destruct k, k'; simpl; try done;
    rewrite lookup_insert_ne; [done| |done|]; by intros ->.
Qed.

Lemma contents_store_list_ne (c : Container) (l : list string) (σ : Store)
    (e' : Entity) (d' : ComponentDef) :
  place e' d' ≠ (toString (entity_id (owner c)), class_of c, key c) →
  contents e' d' (store_list c l σ) = contents e' d' σ.
Proof.
  unfold place, contents, store_list. intros Hne.
  destruct (decide (toString (entity_id (owner c)) = toString (entity_id e')))
    as [Heq|Hid].
  - rewrite <- (data_of_same_id (owner c) e' (set_data _ _ _)) by done.
    rewrite <- (data_of_same_id (owner c) e' σ) by done.
    rewrite data_of_set_data, list_in_with_list_ne; [done|].
    intros [= Hk Hn]. apply Hne. by rewrite Hk, Hn, Heq.
  - by rewrite data_of_set_data_ne.
Qed.

Lemma getOrInit_push_eq (e : Entity) (d : ComponentDef) (v : string)
    (σ : Store) :
  is_list_kind (def_constructor d) →
  (let* c := Entity.getOrInit e d in Loro.push c v) σ
  = (Ok tt,
     store_list (mkContainer e (def_constructor d) (def_id d))
       (contents e d σ ++ [v]) (init_store e d σ)).
Proof.
  intros Hk. unfold bind. rewrite getOrInit_run.
  unfold Loro.push. by rewrite list_of_getOrInit.
Qed.

Lemma append_loop_frame (this : Wrapper) (currentAdmins otherAdmins : list string)
    (σ : Store) (e' : Entity) (d' : ComponentDef) :
  place e' d' ≠ place (entity this) components.Admins →
  contents e' d'
    (snd (for_of otherAdmins (λ admin,
            if negb (array_includes currentAdmins admin)
            then let* mine := Administered.admins this in Loro.push mine admin
            else ret tt) σ))
  = contents e' d' σ.
Proof.
  intros Hne. revert σ. induction otherAdmins as [|x rest IH]; intros σ; [done|].
  cbn [for_of]. unfold bind at 1.
  destruct (array_includes currentAdmins x); cbn [negb].
  - unfold ret at 1. apply IH.
  - unfold Administered.admins.
    rewrite getOrInit_push_eq by (by right). rewrite IH.
    rewrite contents_store_list_ne by done. apply contents_init_store.
Qed.

Lemma filter_all_present (a : list string) :
  filter (λ x, x ∉ a) a = [].
Proof.
  assert (∀ b, (∀ x, x ∈ b → x ∈ a) → filter (λ x, x ∉ a) b = []) as H.
  { induction b as [|y b IH]; intros Hb; [done|].
    rewrite filter_cons_False by (intros Hy; apply Hy, Hb; by left).
    apply IH. intros x Hx. apply Hb. by right. }
  by apply H.
Qed.

(** [appendAdminsFrom] in full: it returns, this entity's list gets the new
    identifiers of the other list, and the other list reads as before. *)
Lemma appendAdminsFrom_full (this other : Wrapper) (σ : Store) :
  ∃ σ', Administered.appendAdminsFrom this other σ = (Ok tt, σ')
        ∧ admins_of this σ'
          = admins_of this σ
            ++ filter (λ x, x ∉ admins_of this σ) (admins_of other σ)
        ∧ admins_of other σ' = admins_of other σ.
Proof.
  destruct (appendAdminsFrom_run this other σ) as (σ' & Hrun & Hσ').
  exists σ'. split; [done|]. split; [done|].
  destruct (decide (toString (entity_id (entity this))
                    = toString (entity_id (entity other)))) as [Heq|Hid].
  - assert (∀ τ, admins_of other τ = admins_of this τ) as Hsame.
    { intros τ. unfold admins_of, contents.
      by rewrite (data_of_same_id (entity this) (entity other)). }
    rewrite !Hsame, Hσ', Hsame. by rewrite filter_all_present, app_nil_r.
  - revert Hrun.
    unfold Administered.appendAdminsFrom, Administered.admins.
    unfold bind at 1. rewrite getOrInit_run.
    unfold bind at 1. unfold Loro.toArray at 1.
    rewrite list_of_getOrInit by (by right).
    unfold bind at 1. rewrite getOrInit_run.
    unfold bind at 1. unfold Loro.toArray at 1.
    rewrite list_of_getOrInit by (by right).
    intros Hrun. apply (f_equal snd) in Hrun. cbn [snd] in Hrun.
    rewrite <- Hrun. unfold admins_of.
    rewrite (append_loop_frame this _ _ _ (entity other) components.Admins).
    + by rewrite !contents_init_store.
    + unfold place. intros [= Hx]. by apply Hid.
Qed.

(** X10: [appendAdminsFrom] returns for all contents of the two lists (also
    when both wrappers are over one entity); afterwards this entity's list
    starts with what it held, an identifier is in it exactly when it was in
    one of the two lists, and the other entity's list reads as before. *)
Theorem appendAdminsFrom_members (this other : Wrapper) (σ : Store) :
  fst (Administered.appendAdminsFrom this other σ) = Ok tt
  ∧ admins_of this σ
    `prefix_of` admins_of this (snd (Administered.appendAdminsFrom this other σ))
  ∧ (∀ x, x ∈ admins_of this (snd (Administered.appendAdminsFrom this other σ))
          ↔ x ∈ admins_of this σ ∨ x ∈ admins_of other σ)
  ∧ admins_of other (snd (Administered.appendAdminsFrom this other σ))
    = admins_of other σ.
Proof.
  destruct (appendAdminsFrom_full this other σ) as (σ' & -> & Hthis & Hother).
  cbn [fst snd]. split; [done|]. split; [|split; [|done]].
  - rewrite Hthis. by eexists.
  - intros x. rewrite Hthis, elem_of_app, list_elem_of_filter.
    destruct (decide (x ∈ admins_of this σ)) as [Hin|Hout].
    + split; [by left|]. by left.
    + split; [by intros [?|[_ ?]]; [left|right]|].
      intros [?|?]; [by left|by right].
Qed.

(** X11: on two lists without repetitions, [appendAdminsFrom] leaves a list
    without repetitions. *)
Theorem appendAdminsFrom_keeps_NoDup (this other : Wrapper) (σ : Store) :
  NoDup (admins_of this σ) → NoDup (admins_of other σ) →
  NoDup (admins_of this (snd (Administered.appendAdminsFrom this other σ))).
Proof.
  intros Hthis Hother.
  destruct (appendAdminsFrom_full this other σ) as (σ' & -> & Hσ' & _).
  cbn [snd]. rewrite Hσ'.
  apply NoDup_app. split; [done|]. split; [|by apply NoDup_filter].
  intros x Hx [Hnot _]%list_elem_of_filter. done.
Qed.

Lemma appendAdminsFrom_keeps_NoDup_witness :
  NoDup (admins_of (wrapper_on Kind.Administered "A")
           (snd (Administered.appendAdminsFrom
                   (wrapper_on Kind.Administered "A")
                   (wrapper_on Kind.Administered "B")
                   {[ "A" := holding components.Admins ["x"; "y"];
                      "B" := holding components.Admins ["y"; "z"] ]}))).
Proof.
  apply (appendAdminsFrom_keeps_NoDup
           (wrapper_on Kind.Administered "A") (wrapper_on Kind.Administered "B")
           {[ "A" := holding components.Admins ["x"; "y"];
              "B" := holding components.Admins ["y"; "z"] ]});
    refine (bool_decide_unpack _ _); by vm_compute.
Defined.

(** X12: [appendAdminsFrom] is idempotent on this entity's list: a second
    call with the same argument, right after the first, appends nothing
    (whatever the two lists hold, repetitions included). *)
Theorem appendAdminsFrom_twice (this other : Wrapper) (σ : Store) :
  admins_of this
    (snd ((Administered.appendAdminsFrom this other ;;
           Administered.appendAdminsFrom this other) σ))
  = admins_of this (snd (Administered.appendAdminsFrom this other σ)).
Proof.
  destruct (appendAdminsFrom_full this other σ) as (σ1 & Hrun1 & Hthis & Hother).
  destruct (appendAdminsFrom_full this other σ1) as (σ2 & Hrun2 & Hthis2 & _).
  unfold bind. rewrite Hrun1, Hrun2. cbn [snd].
  rewrite Hthis2, Hother.
  assert (filter (λ x, x ∉ admins_of this σ1) (admins_of other σ) = []) as ->;
    [|by rewrite app_nil_r].
  assert (∀ b, (∀ x, x ∈ b → x ∈ admins_of other σ) →
               filter (λ x, x ∉ admins_of this σ1) b = []) as Hall;
    [|by apply Hall].
  induction b as [|y b IH]; intros Hb; [done|].
  rewrite filter_cons_False; [apply IH; intros x Hx; apply Hb; by right|].
  intros Hy. apply Hy. rewrite Hthis. apply elem_of_app.
  destruct (decide (y ∈ admins_of this σ)); [by left|].
  right. apply list_elem_of_filter. split; [done|]. apply Hb. by left.
Qed.

(** ** Soft deletion *)

Lemma softDeleted_run (w : Wrapper) (σ : Store) :
  Deletable.softDeleted w σ
  = (Ok (present components.SoftDeleted (data_of (entity w) σ)), σ).
Proof. done. Qed.

Lemma set_softDeleted_true (w : Wrapper) (σ : Store) :
  Deletable.set_softDeleted w true σ
  = (Ok tt, init_store (entity w) components.SoftDeleted σ).
Proof.
  unfold Deletable.set_softDeleted, Entity.init, bind.
  by rewrite getOrInit_run.
Qed.

Lemma set_softDeleted_false (w : Wrapper) (σ : Store) :
  Deletable.set_softDeleted w false σ
  = (Ok tt,
     if present components.SoftDeleted (data_of (entity w) σ)
     then set_data (entity w)
            (dematerialise components.SoftDeleted (data_of (entity w) σ)) σ
     else σ).
Proof.
  unfold Deletable.set_softDeleted, Entity.delete.
  by destruct (present components.SoftDeleted (data_of (entity w) σ)).
Qed.

Lemma present_dematerialise (d : ComponentDef) (ed : EntityData) :
  present d (dematerialise d ed) = false.
Proof.
  unfold present, dematerialise.
  destruct (def_constructor d); simpl; apply bool_decide_eq_false;
    rewrite ?lookup_delete_eq; try (by intros [? ?]).
  intros [_ Hin]%elem_of_difference. by apply Hin, elem_of_singleton.
Qed.

Lemma softDeleted_after_set (w : Wrapper) (deleted : bool) (σ : Store) :
  present components.SoftDeleted
    (data_of (entity w) (snd (Deletable.set_softDeleted w deleted σ)))
  = deleted.
Proof.
  destruct deleted.
  - rewrite set_softDeleted_true. apply present_init_store.
  - rewrite set_softDeleted_false. cbn [snd].
    destruct (present components.SoftDeleted (data_of (entity w) σ)) eqn:Hp;
      [|done].
    rewrite data_of_set_data. apply present_dematerialise.
Qed.

(** X13: the [softDeleted] setter never raises and the getter then reads the
    value that was set; setting the same value again changes nothing. *)
Theorem softDeleted_reads_what_was_set (w : Wrapper) (deleted : bool)
    (σ : Store) :
  fst ((Deletable.set_softDeleted w deleted ;; Deletable.softDeleted w) σ)
  = Ok deleted
  ∧ snd (Deletable.set_softDeleted w deleted
           (snd (Deletable.set_softDeleted w deleted σ)))
    = snd (Deletable.set_softDeleted w deleted σ).
Proof.
  pose proof (softDeleted_after_set w deleted σ) as Hafter. split.
  - unfold bind.
    destruct (Deletable.set_softDeleted w deleted σ) as [[[]|e] σ1] eqn:Hset.
    + rewrite softDeleted_run. cbn [fst snd] in *. by rewrite Hafter.
    + destruct deleted;
        [rewrite set_softDeleted_true in Hset
        |rewrite set_softDeleted_false in Hset]; done.
  - destruct deleted.
    + rewrite !set_softDeleted_true. cbn [snd].
      apply init_store_present, present_init_store.
    + rewrite set_softDeleted_false in Hafter. cbn [snd] in Hafter.
      rewrite !set_softDeleted_false. cbn [snd]. by rewrite Hafter.
Qed.

(** X14: toggling [softDeleted] is a tombstone only: no list of any entity
    reads differently afterwards. *)
Theorem softDeleted_keeps_lists (w : Wrapper) (deleted : bool) (σ : Store)
    (e' : Entity) (d' : ComponentDef) :
  contents e' d' (snd (Deletable.set_softDeleted w deleted σ))
  = contents e' d' σ.
Proof.
  destruct deleted.
  - rewrite set_softDeleted_true. apply contents_init_store.
  - rewrite set_softDeleted_false. cbn [snd].
    destruct (present components.SoftDeleted (data_of (entity w) σ)); [|done].
    unfold contents.
    destruct (decide (toString (entity_id (entity w)) = toString (entity_id e')))
      as [Heq|Hne].
    + rewrite <- (data_of_same_id (entity w) e' (set_data _ _ _)) by done.
      rewrite <- (data_of_same_id (entity w) e' σ) by done.
      rewrite data_of_set_data. unfold list_in.
      by destruct (def_constructor d').
    + by rewrite data_of_set_data_ne.
Qed.

(** ** Map-backed accessors *)

Lemma fields_of_getOrInit (e : Entity) (d : ComponentDef) (σ : Store) :
  def_constructor d = LoroMap →
  fields_of (mkContainer e (def_constructor d) (def_id d)) (init_store e d σ)
  = Some (fields e d σ).
Proof.
  intros Hk. unfold fields_of, fields, init_store, present. cbn [class_of owner key].
  rewrite Hk. f_equal.
  destruct (maps (data_of e σ) !! def_id d) as [m|] eqn:Hm.
  - rewrite bool_decide_eq_true_2 by eauto. by rewrite Hm.
  - rewrite bool_decide_eq_false_2 by (by intros [? ?]).
    rewrite data_of_set_data. unfold materialise. rewrite Hk. cbn [maps].
    by rewrite lookup_insert_eq.
Qed.

Lemma map_get_run (e : Entity) (d : ComponentDef) (field : string) (σ : Store) :
  def_constructor d = LoroMap →
  (let* c := Entity.getOrInit e d in Loro.get c field) σ
  = (Ok (fields e d σ !! field), init_store e d σ).
Proof.
  intros Hk. unfold bind. rewrite getOrInit_run. unfold Loro.get.
  by rewrite fields_of_getOrInit.
Qed.

Lemma map_set_run (e : Entity) (d : ComponentDef) (field value : string)
    (σ : Store) :
  def_constructor d = LoroMap →
  (let* c := Entity.getOrInit e d in Loro.set c field value) σ
  = (Ok tt,
     store_fields (mkContainer e (def_constructor d) (def_id d))
       (<[field := value]> (fields e d σ)) (init_store e d σ)).
Proof.
  intros Hk. unfold bind. rewrite getOrInit_run. unfold Loro.set.
  by rewrite fields_of_getOrInit.
Qed.

Lemma fields_store_fields (e : Entity) (d : ComponentDef)
    (m : gmap string string) (σ : Store) :
  fields e d (store_fields (mkContainer e (def_constructor d) (def_id d)) m σ)
  = m.
Proof.
  unfold fields, store_fields. cbn [owner key].
  rewrite data_of_set_data. cbn [maps]. by rewrite lookup_insert_eq.
Qed.

(** Reading a field after setting one: the field set reads as the value,
    every other field as before. *)
Lemma map_get_after_set (e : Entity) (d : ComponentDef)
    (field value field' : string) (σ : Store) :
  def_constructor d = LoroMap →
  fst (((let* c := Entity.getOrInit e d in Loro.set c field value) ;;
        (let* c := Entity.getOrInit e d in Loro.get c field')) σ)
  = Ok (if decide (field = field') then Some value
        else fields e d σ !! field').
Proof.
  intros Hk. unfold bind at 1. rewrite map_set_run by done.
  rewrite map_get_run by done. cbn [fst]. f_equal.
  rewrite fields_store_fields. apply lookup_insert.
Qed.

(** X15: on first access the map-backed getters read what the schema's
    initialiser set: an entity without the component reads "Unnamed" as its
    name (and no description), "example:image" as its image URI (and no alt
    text), "unknown" as its announcement kind. *)
Theorem defaults_on_first_access (w : Wrapper) (σ : Store) :
  (present components.BasicMeta (data_of (entity w) σ) = false →
   fst (NamedEntity.name w σ) = Ok (Some "Unnamed")
   ∧ fst (NamedEntity.description w σ) = Ok None)
  ∧ (present components.ImageUri (data_of (entity w) σ) = false →
     fst (Image.uri w σ) = Ok (Some "example:image")
     ∧ fst (Image.alt w σ) = Ok None)
  ∧ (present components.ChannelAnnouncement (data_of (entity w) σ) = false →
     fst (Announcement.kind w σ) = Ok (Some "unknown")).
Proof.
  unfold NamedEntity.name, NamedEntity.description, Image.uri, Image.alt,
    Announcement.kind.
  rewrite !map_get_run by done. cbn [fst]. unfold fields, present.
  cbn [def_constructor def_id def_init components.BasicMeta
       components.ImageUri components.ChannelAnnouncement].
  split; [|split]; intros Habsent%bool_decide_eq_false;
    rewrite <- eq_None_not_Some in Habsent; by rewrite Habsent.
Qed.

Lemma defaults_on_first_access_witness :
  fst (NamedEntity.name (wrapper_on Kind.Space "space") ∅) = Ok (Some "Unnamed")
  ∧ fst (Image.uri (wrapper_on Kind.Image "img") ∅) = Ok (Some "example:image")
  ∧ fst (Announcement.kind (wrapper_on Kind.Announcement "ann") ∅)
    = Ok (Some "unknown").
Proof.
  split; [|split].
  - apply (defaults_on_first_access (wrapper_on Kind.Space "space") ∅).
    reflexivity.
  - apply (defaults_on_first_access (wrapper_on Kind.Image "img") ∅).
    reflexivity.
  - apply (defaults_on_first_access (wrapper_on Kind.Announcement "ann") ∅).
    reflexivity.
Defined.

(** X16: a name that was set is the name read, also on an entity that had no
    metadata before (the default does not come back), and setting the name
    leaves the description as it read before. *)
Theorem name_reads_what_was_set (w : Wrapper) (name : string) (σ : Store) :
  fst ((NamedEntity.set_name w name ;; NamedEntity.name w) σ) = Ok (Some name)
  ∧ fst ((NamedEntity.set_name w name ;; NamedEntity.description w) σ)
    = fst (NamedEntity.description w σ).
Proof.
  unfold NamedEntity.set_name, NamedEntity.name, NamedEntity.description.
  rewrite !map_get_after_set, map_get_run by done. done.
Qed.

(** X17: the URI and the alt text of an image are set independently, and the
    kind of an announcement reads as it was set. *)
Theorem image_fields_read_what_was_set (w : Wrapper) (value : string)
    (σ : Store) :
  fst ((Image.set_uri w value ;; Image.uri w) σ) = Ok (Some value)
  ∧ fst ((Image.set_alt w value ;; Image.alt w) σ) = Ok (Some value)
  ∧ fst ((Image.set_alt w value ;; Image.uri w) σ) = fst (Image.uri w σ)
  ∧ fst ((Image.set_uri w value ;; Image.alt w) σ) = fst (Image.alt w σ)
  ∧ fst ((Announcement.set_kind w value ;; Announcement.kind w) σ)
    = Ok (Some value).
Proof.
  unfold Image.set_uri, Image.uri, Image.set_alt, Image.alt,
    Announcement.set_kind, Announcement.kind.
  rewrite !map_get_after_set, !map_get_run by done. done.
Qed.

(** X18: the [replyTo] getter only looks: it never raises and never writes,
    not even to create the component; without the component it reads
    [undefined], with it the stored [entity] field. *)
Theorem replyTo_reads_without_creating (w : Wrapper) (σ : Store) :
  snd (TimelineItem.replyTo w σ) = σ
  ∧ (present components.ReplyTo (data_of (entity w) σ) = false →
     fst (TimelineItem.replyTo w σ) = Ok None)
  ∧ (present components.ReplyTo (data_of (entity w) σ) = true →
     fst (TimelineItem.replyTo w σ)
     = Ok (fields (entity w) components.ReplyTo σ !! "entity")).
Proof.
  unfold TimelineItem.replyTo, bind, Entity.get.
  destruct (present components.ReplyTo (data_of (entity w) σ)) eqn:Hp.
  - unfold Loro.get, fields_of, fields. cbn [class_of owner key
      def_constructor def_id def_init components.ReplyTo].
    split; [done|]. split; [done|]. by intros _.
  - done.
Qed.

Lemma replyTo_reads_without_creating_witness :
  fst (TimelineItem.replyTo (wrapper_on Kind.Message "msg") ∅) = Ok None.
Proof.
  apply (replyTo_reads_without_creating (wrapper_on Kind.Message "msg") ∅).
  reflexivity.
Defined.

(** ** Entity lists: writing *)

Lemma insert_run (L : EntityList.t) (index : Z) (item : Wrapper) (σ : Store) :
  is_list_kind (def_constructor (EntityList.def L)) →
  let e := entity (EntityList.base L) in
  let d := EntityList.def L in
  EntityList.insert L index item σ
  = match inserted (contents e d σ) index (EntityWrapper.id item) with
    | Some l' =>
        (Ok tt,
         store_list (mkContainer e (def_constructor d) (def_id d)) l'
           (init_store e d σ))
    | None => (Throw Rejected, init_store e d σ)
    end.
Proof.
  intros Hk e d. unfold EntityList.insert, bind. rewrite getOrInit_run.
  unfold Loro.insert. by rewrite list_of_getOrInit.
Qed.

Lemma remove_run (L : EntityList.t) (itemIdx : Z) (σ : Store) :
  is_list_kind (def_constructor (EntityList.def L)) →
  let e := entity (EntityList.base L) in
  let d := EntityList.def L in
  EntityList.remove L itemIdx σ
  = match deleted (contents e d σ) itemIdx 1 with
    | Some l' =>
        (Ok tt,
         store_list (mkContainer e (def_constructor d) (def_id d)) l'
           (init_store e d σ))
    | None => (Throw Rejected, init_store e d σ)
    end.
Proof.
  intros Hk e d. unfold EntityList.remove, bind. rewrite getOrInit_run.
  unfold Loro.delete. by rewrite list_of_getOrInit.
Qed.

Lemma inserted_in_range (l : list string) (n : nat) (v : string) :
  (n ≤ length l)%nat →
  inserted l (Z.of_nat n) v = Some (take n l ++ v :: drop n l).
Proof.
  intros Hn. unfold inserted.
  assert ((0 <=? Z.of_nat n)%Z && (Z.of_nat n <=? Z.of_nat (length l))%Z = true)
    as -> by (apply andb_true_intro; split; apply Z.leb_le; lia).
  by rewrite Nat2Z.id.
Qed.

Lemma deleted_in_range (l : list string) (n : nat) :
  (n < length l)%nat →
  deleted l (Z.of_nat n) 1 = Some (take n l ++ drop (S n) l).
Proof.
  intros Hn. unfold deleted.
  assert ((0 <=? Z.of_nat n)%Z && (0 <=? 1)%Z
          && (Z.of_nat n + 1 <=? Z.of_nat (length l))%Z = true) as ->
    by (repeat (apply andb_true_intro; split); apply Z.leb_le; lia).
  rewrite Nat2Z.id. by replace (Z.to_nat (Z.of_nat n + 1)) with (S n) by lia.
Qed.

(** X19: after [push], the list reads as before with the item's id at the
    end, and its length has grown by one. *)
Theorem push_then_read (L : EntityList.t) (item : Wrapper) (σ : Store) :
  is_list_kind (def_constructor (EntityList.def L)) →
  let before := contents (entity (EntityList.base L)) (EntityList.def L) σ in
  fst ((EntityList.push L item ;; EntityList.ids L) σ)
  = Ok (before ++ [EntityWrapper.id item])
  ∧ fst ((EntityList.push L item ;; EntityList.length L) σ)
    = Ok (Z.of_nat (length before) + 1)%Z.
Proof.
  intros Hk before. unfold bind at 1 2. unfold EntityList.push.
  rewrite getOrInit_push_eq by done. split.
  - rewrite ids_run by done. cbn [fst]. by rewrite contents_store_list.
  - unfold EntityList.length, bind. rewrite getOrInit_run. unfold Loro.length.
    rewrite list_of_getOrInit, contents_store_list by done. cbn [fst].
    f_equal. subst before. rewrite length_app. cbn [length]. lia.
Qed.

Lemma push_then_read_witness :
  fst ((EntityList.push (Roomy.spaces (wrapper_on Kind.Roomy "catalog"))
          (wrapper_on Kind.Space "s2") ;;
        EntityList.ids (Roomy.spaces (wrapper_on Kind.Roomy "catalog")))
         {[ "catalog" := holding components.Spaces ["s1"] ]})
  = Ok (contents (entity_named "catalog") components.Spaces
          {[ "catalog" := holding components.Spaces ["s1"] ]}
        ++ [EntityWrapper.id (wrapper_on Kind.Space "s2")]).
Proof.
  apply (push_then_read (Roomy.spaces (wrapper_on Kind.Roomy "catalog"))
           (wrapper_on Kind.Space "s2")
           {[ "catalog" := holding components.Spaces ["s1"] ]}).
  by right.
Defined.

(** X20: [insert] at a position inside the list (or at its end) puts the
    item's id there and shifts the later entries; [remove] at that position
    right after gives back the list that was there. *)
Theorem insert_then_remove (L : EntityList.t) (n : nat) (item : Wrapper)
    (σ : Store) :
  is_list_kind (def_constructor (EntityList.def L)) →
  let e := entity (EntityList.base L) in
  let d := EntityList.def L in
  (n ≤ length (contents e d σ))%nat →
  fst (EntityList.insert L (Z.of_nat n) item σ) = Ok tt
  ∧ contents e d (snd (EntityList.insert L (Z.of_nat n) item σ))
    = take n (contents e d σ) ++ EntityWrapper.id item :: drop n (contents e d σ)
  ∧ fst ((EntityList.insert L (Z.of_nat n) item ;;
          EntityList.remove L (Z.of_nat n)) σ) = Ok tt
  ∧ contents e d
      (snd ((EntityList.insert L (Z.of_nat n) item ;;
             EntityList.remove L (Z.of_nat n)) σ))
    = contents e d σ.
Proof.
  intros Hk e d Hn. unfold bind.
  rewrite (insert_run L) by done. fold e d.
  rewrite inserted_in_range by done. cbn [fst snd].
  rewrite contents_store_list by done.
  split; [done|]. split; [done|].
  rewrite (remove_run L) by done. fold e d.
  rewrite contents_store_list by done.
  assert (deleted (take n (contents e d σ)
                   ++ EntityWrapper.id item :: drop n (contents e d σ))
            (Z.of_nat n) 1 = Some (contents e d σ)) as ->.
  { rewrite <- (length_take_le (contents e d σ) n) at 3 by done.
    by rewrite deleted_middle, take_drop. }
  cbn [fst snd]. split; [done|]. by rewrite contents_store_list.
Qed.

Lemma insert_then_remove_witness :
  contents (entity_named "catalog") components.Spaces
    (snd ((EntityList.insert (Roomy.spaces (wrapper_on Kind.Roomy "catalog"))
             (Z.of_nat 1) (wrapper_on Kind.Space "s9") ;;
           EntityList.remove (Roomy.spaces (wrapper_on Kind.Roomy "catalog"))
             (Z.of_nat 1))
            {[ "catalog" := holding components.Spaces ["s1"; "s2"] ]}))
  = contents (entity_named "catalog") components.Spaces
      {[ "catalog" := holding components.Spaces ["s1"; "s2"] ]}.
Proof.
  destruct (insert_then_remove
              (Roomy.spaces (wrapper_on Kind.Roomy "catalog")) 1
              (wrapper_on Kind.Space "s9")
              {[ "catalog" := holding components.Spaces ["s1"; "s2"] ]})
    as (_ & _ & _ & Hback).
  - by right.
  - vm_compute. lia.
  - exact Hback.
Defined.

(** X21: [remove] at a position inside the list takes out exactly the entry
    there: the entries before and after keep their order. *)
Theorem remove_takes_one_entry (L : EntityList.t) (n : nat) (σ : Store) :
  is_list_kind (def_constructor (EntityList.def L)) →
  let e := entity (EntityList.base L) in
  let d := EntityList.def L in
  (n < length (contents e d σ))%nat →
  fst (EntityList.remove L (Z.of_nat n) σ) = Ok tt
  ∧ contents e d (snd (EntityList.remove L (Z.of_nat n) σ))
    = take n (contents e d σ) ++ drop (S n) (contents e d σ)
  ∧ length (contents e d (snd (EntityList.remove L (Z.of_nat n) σ)))
    = (length (contents e d σ) - 1)%nat.
Proof.
  intros Hk e d Hn. rewrite (remove_run L) by done. fold e d.
  rewrite deleted_in_range by done. cbn [fst snd].
  rewrite contents_store_list by done.
  split; [done|]. split; [done|].
  rewrite length_app, length_take_le, length_drop by lia. lia.
Qed.

Lemma remove_takes_one_entry_witness :
  fst (EntityList.remove (Roomy.spaces (wrapper_on Kind.Roomy "catalog"))
         (Z.of_nat 1)
         {[ "catalog" := holding components.Spaces ["s1"; "s2"; "s3"] ]})
  = Ok tt.
Proof.
  destruct (remove_takes_one_entry
              (Roomy.spaces (wrapper_on Kind.Roomy "catalog")) 1
              {[ "catalog" := holding components.Spaces ["s1"; "s2"; "s3"] ]})
    as (Hok & _).
  - by right.
  - vm_compute. lia.
  - exact Hok.
Defined.

Lemma stored_dematerialise (e : Entity) (d : ComponentDef) (σ : Store) :
  contents e d (set_data e (dematerialise d (data_of e σ)) σ) = [].
Proof.
  unfold contents. rewrite data_of_set_data.
  unfold list_in, dematerialise.
  destruct (def_constructor d); simpl; by rewrite ?lookup_delete_eq.
Qed.

(** X22: [delete] takes the whole component away without raising: the
    entity no longer has it, and the next read finds the empty list and, by
    reading, puts the component back. *)
Theorem delete_then_read (L : EntityList.t) (σ : Store) :
  let e := entity (EntityList.base L) in
  let d := EntityList.def L in
  fst (EntityList.delete L σ) = Ok tt
  ∧ present d (data_of e (snd (EntityList.delete L σ))) = false
  ∧ (is_list_kind (def_constructor d) →
     fst ((EntityList.delete L ;; EntityList.ids L) σ) = Ok [])
  ∧ present d (data_of e (snd ((EntityList.delete L ;; EntityList.ids L) σ)))
    = true.
Proof.
  intros e d.
  assert (∃ σ1, EntityList.delete L σ = (Ok tt, σ1)
                ∧ present d (data_of e σ1) = false
                ∧ contents e d σ1 = []) as (σ1 & Hdel & Hp1 & Hc1).
  { unfold EntityList.delete, Entity.delete. fold e d.
    destruct (present d (data_of e σ)) eqn:Hp.
    - eexists. split; [done|]. rewrite data_of_set_data.
      split; [apply present_dematerialise|apply stored_dematerialise].
    - exists σ. split; [done|]. split; [done|].
      unfold contents. revert Hp. unfold present, list_in.
      destruct (def_constructor d); try done;
        intros Hp%bool_decide_eq_false;
        rewrite <- eq_None_not_Some in Hp; by rewrite Hp. }
  unfold bind. rewrite Hdel. cbn [fst snd].
  split; [done|]. split; [done|]. split.
  - intros Hk. rewrite ids_run by done. cbn [fst]. fold e d. by rewrite Hc1.
  - rewrite ids_store. apply present_init_store.
Qed.

Lemma delete_then_read_witness :
  fst ((EntityList.delete (Roomy.spaces (wrapper_on Kind.Roomy "catalog")) ;;
        EntityList.ids (Roomy.spaces (wrapper_on Kind.Roomy "catalog")))
         {[ "catalog" := holding components.Spaces ["s1"; "s2"] ]})
  = Ok [].
Proof.
  apply (delete_then_read (Roomy.spaces (wrapper_on Kind.Roomy "catalog"))
           {[ "catalog" := holding components.Spaces ["s1"; "s2"] ]}).
  by right.
Defined.

Lemma moved_in_range (l : list string) (i j : nat) (x : string) :
  l !! i = Some x → (j < length l)%nat →
  moved l (Z.of_nat i) (Z.of_nat j)
  = Some (take j (delete i l) ++ x :: drop j (delete i l)).
Proof.
  intros Hx Hj. unfold moved.
  assert ((0 <=? Z.of_nat i)%Z && (0 <=? Z.of_nat j)%Z = true) as ->
    by (apply andb_true_intro; split; apply Z.leb_le; lia).
  rewrite !Nat2Z.id, Hx. by rewrite decide_True by done.
Qed.

(** X23: on a movable list, [move] between two positions of the list
    returns; the list keeps its length and its entries (it is a permutation
    of what it was), and the entry that was at the first position is at the
    second. *)
Theorem move_permutes (L : EntityList.t) (i j : nat) (σ : Store) :
  def_constructor (EntityList.def L) = LoroMovableList →
  let e := entity (EntityList.base L) in
  let d := EntityList.def L in
  (i < length (contents e d σ))%nat → (j < length (contents e d σ))%nat →
  fst (EntityList.move L (Z.of_nat i) (Z.of_nat j) σ) = Ok tt
  ∧ contents e d (snd (EntityList.move L (Z.of_nat i) (Z.of_nat j) σ))
    ≡ₚ contents e d σ
  ∧ contents e d (snd (EntityList.move L (Z.of_nat i) (Z.of_nat j) σ)) !! j
    = contents e d σ !! i.
Proof.
  intros Hk e d Hi Hj.
  destruct (lookup_lt_is_Some_2 _ _ Hi) as [x Hx].
  rewrite move_run_movable by done. fold e d.
  rewrite (moved_in_range _ i j x) by done. cbn [fst snd].
  assert (contents e d
            (store_list (mkContainer e LoroMovableList (def_id d))
               (take j (delete i (contents e d σ))
                ++ x :: drop j (delete i (contents e d σ)))
               (init_store e d σ))
          = take j (delete i (contents e d σ))
            ++ x :: drop j (delete i (contents e d σ))) as ->.
  { rewrite <- Hk. apply contents_store_list. by right. }
  split; [done|]. split.
  - rewrite <- Permutation_middle, take_drop. symmetry.
    by apply delete_Permutation.
  - rewrite Hx. apply list_lookup_middle.
    rewrite length_take_le; [done|].
    rewrite length_delete by eauto. lia.
Qed.

Lemma move_permutes_witness :
  fst (EntityList.move (Roomy.spaces (wrapper_on Kind.Roomy "catalog"))
         (Z.of_nat 0) (Z.of_nat 2)
         {[ "catalog" := holding components.Spaces ["s1"; "s2"; "s3"] ]})
  = Ok tt.
Proof.
  destruct (move_permutes (Roomy.spaces (wrapper_on Kind.Roomy "catalog")) 0 2
              {[ "catalog" := holding components.Spaces ["s1"; "s2"; "s3"] ]})
    as (Hok & _).
  - reflexivity.
  - vm_compute. lia.
  - vm_compute. lia.
  - exact Hok.
Defined.

(** ** Entity lists: resolving the items *)

Lemma items_run (L : EntityList.t) (σ : Store) :
  is_list_kind (def_constructor (EntityList.def L)) →
  EntityList.items L σ
  = (foldr (λ ent acc,
              match open (peer (EntityList.base L)) ent, acc with
              | Ok e, Ok ws =>
                  Ok (mkWrapper (EntityList.factory L)
                        (peer (EntityList.base L)) e :: ws)
              | _, _ => Throw Rejected
              end) (Ok [])
       (contents (entity (EntityList.base L)) (EntityList.def L) σ),
     init_store (entity (EntityList.base L)) (EntityList.def L) σ).
Proof.
  intros Hk. unfold EntityList.items, bind. rewrite getOrInit_run.
  unfold Loro.toArray. by rewrite list_of_getOrInit.
Qed.

(** X24: [items] resolves exactly when every id of the list opens: then it
    yields one wrapper per id, in list order, each of the list's item kind,
    on the list's peer and over the entity that id opened; if some id fails
    to open, the whole call rejects.  Either way the list reads as before. *)
Theorem items_resolve_all_or_reject (L : EntityList.t) (σ : Store) :
  is_list_kind (def_constructor (EntityList.def L)) →
  let ids := contents (entity (EntityList.base L)) (EntityList.def L) σ in
  ((∀ ent, ent ∈ ids → ∃ e, open (peer (EntityList.base L)) ent = Ok e) →
   ∃ ws, fst (EntityList.items L σ) = Ok ws
         ∧ Forall2 (λ ent w,
                      open (peer (EntityList.base L)) ent = Ok (entity w)
                      ∧ kind w = EntityList.factory L
                      ∧ peer w = peer (EntityList.base L)) ids ws)
  ∧ ((∃ ent x, ent ∈ ids ∧ open (peer (EntityList.base L)) ent = Throw x) →
     fst (EntityList.items L σ) = Throw Rejected)
  ∧ contents (entity (EntityList.base L)) (EntityList.def L)
      (snd (EntityList.items L σ)) = ids.
Proof.
  intros Hk ids. rewrite items_run by done. cbn [fst snd]. fold ids.
  split; [|split; [|apply contents_init_store]].
  - generalize ids. clear ids. induction ids as [|ent ids IH]; intros Hall.
    + exists []. by split; [|constructor].
    + destruct (Hall ent) as [e He]; [by left|].
      destruct IH as (ws & Hws & Hall2); [intros x Hx; apply Hall; by right|].
      cbn [foldr]. rewrite He, Hws. eexists. split; [done|].
      by constructor.
  - generalize ids. clear ids. induction ids as [|ent ids IH].
    + by intros (? & ? & ?%elem_of_nil & _).
    + intros (bad & x & [->|Hin]%elem_of_cons & Hbad); cbn [foldr].
      * by rewrite Hbad.
      * rewrite IH by (by exists bad, x).
        by destruct (open (peer (EntityList.base L)) ent).
Qed.

Lemma items_resolve_all_or_reject_witness :
  ∃ ws, fst (EntityList.items (Roomy.spaces (wrapper_on Kind.Roomy "catalog"))
               {[ "catalog" := holding components.Spaces ["s1"; "s2"] ]})
        = Ok ws
        ∧ length ws = 2%nat.
Proof.
  destruct (items_resolve_all_or_reject
              (Roomy.spaces (wrapper_on Kind.Roomy "catalog"))
              {[ "catalog" := holding components.Spaces ["s1"; "s2"] ]})
    as (Hall & _).
  - by right.
  - destruct Hall as (ws & Hws & Hall2).
    + intros ent _. by eexists.
    + exists ws. split; [exact Hws|].
      apply Forall2_length in Hall2. by rewrite <- Hall2.
Defined.

(** ** Reading a list changes the sidebar type *)

(** X25: reading the messages of a channel makes it a "category":
    [Channel.messages] is over the [Messages] component, which the read
    creates, and [type] tests that component first; so afterwards [type]
    answers "category", [asChannel] returns [undefined] and [asCategory] a
    wrapper.  Likewise, on an entity without [Messages], reading
    [Category.channels] makes [type] answer "channel". *)
Theorem reading_messages_makes_category (w : Wrapper) (σ : Store) :
  fst ((EntityList.ids (Channel.messages w) ;; SidebarItem.type w) σ)
  = Ok "category"
  ∧ fst ((EntityList.ids (Channel.messages w) ;; SidebarItem.asChannel w) σ)
    = Ok None
  ∧ fst ((EntityList.ids (Channel.messages w) ;; SidebarItem.asCategory w) σ)
    = Ok (Some (mkWrapper Kind.Category (peer w) (entity w)))
  ∧ (present components.Messages (data_of (entity w) σ) = false →
     fst ((EntityList.ids (Category.channels w) ;; SidebarItem.type w) σ)
     = Ok "channel"
     ∧ fst ((EntityList.ids (Category.channels w) ;; SidebarItem.asCategory w) σ)
       = Ok None).
Proof.
  assert (∀ τ, present components.Messages (data_of (entity w) τ) = true →
               SidebarItem.type w τ = (Ok "category", τ)) as Hcat.
  { intros τ Hp. by rewrite type_run, Hp. }
  pose proof (present_init_store (entity w) components.Messages σ) as Hp.
  split; [|split; [|split]].
  - unfold bind. rewrite (ids_run (Channel.messages w)) by (by right).
    by rewrite Hcat.
  - unfold bind at 1. rewrite (ids_run (Channel.messages w)) by (by right).
    unfold SidebarItem.asChannel, bind. by rewrite Hcat.
  - unfold bind at 1. rewrite (ids_run (Channel.messages w)) by (by right).
    unfold SidebarItem.asCategory, bind. by rewrite Hcat.
  - intros Habsent.
    assert (SidebarItem.type w (init_store (entity w) components.Channels σ)
            = (Ok "channel", init_store (entity w) components.Channels σ))
      as Hch.
    { rewrite type_run.
      assert (present components.Messages
                (data_of (entity w) (init_store (entity w) components.Channels σ))
              = false) as ->.
      { unfold init_store.
        destruct (present components.Channels (data_of (entity w) σ)); [done|].
        rewrite data_of_set_data. revert Habsent.
        unfold present, materialise.
        cbn [def_constructor def_id components.Messages components.Channels
             movable_lists].
        intros Habsent%bool_decide_eq_false. apply bool_decide_eq_false.
        by rewrite lookup_insert_ne. }
      by rewrite present_init_store. }
    split.
    + unfold bind. rewrite (ids_run (Category.channels w)) by (by right).
      cbn [EntityList.base EntityList.def Category.channels
           EntityList.constructor entity]. by rewrite Hch.
    + unfold bind at 1. rewrite (ids_run (Category.channels w)) by (by right).
      cbn [EntityList.base EntityList.def Category.channels
           EntityList.constructor entity].
      unfold SidebarItem.asCategory, bind. by rewrite Hch.
Qed.

Lemma reading_messages_makes_category_witness :
  fst ((EntityList.ids (Category.channels (wrapper_on Kind.Category "cat")) ;;
        SidebarItem.type (wrapper_on Kind.Category "cat")) ∅)
  = Ok "channel".
Proof.
  apply (reading_messages_makes_category (wrapper_on Kind.Category "cat") ∅).
  reflexivity.
Defined.

(** ** The earlier list's [add] *)

(** X26: in the earlier [EntityList], [add] always ends by throwing
    [Error("Unreachable")], and it throws after the item's id has been
    appended: the list reads as before with the id at its end. *)
Theorem earlier_add_pushes_then_throws (L : EntityList.t) (item : Wrapper)
    (σ : Store) :
  is_list_kind (def_constructor (EntityList.def L)) →
  fst (EarlierEntityList.add L item σ) = Throw (Error "Unreachable")
  ∧ contents (entity (EntityList.base L)) (EntityList.def L)
      (snd (EarlierEntityList.add L item σ))
    = contents (entity (EntityList.base L)) (EntityList.def L) σ
      ++ [EntityWrapper.id item].
Proof.
  intros Hk. unfold EarlierEntityList.add, bind. rewrite getOrInit_run.
  unfold Loro.push. rewrite list_of_getOrInit by done.
  unfold throw. cbn [fst snd].
  split; [done|]. by rewrite contents_store_list.
Qed.

Lemma earlier_add_pushes_then_throws_witness :
  fst (EarlierEntityList.add (Roomy.spaces (wrapper_on Kind.Roomy "catalog"))
         (wrapper_on Kind.Space "s1") ∅)
  = Throw (Error "Unreachable").
Proof.
  apply (earlier_add_pushes_then_throws
           (Roomy.spaces (wrapper_on Kind.Roomy "catalog"))
           (wrapper_on Kind.Space "s1") ∅).
  by right.
Defined.

(** ** Reactions touch the reactions list only *)

(** X27: [add] and [remove] write to the reactions list of their own entity
    and to no other list: every list component at another place (another
    entity, class or identifier) reads after the call as before. *)
Theorem reactions_keep_other_lists (w : Wrapper) (symbol actor : string)
    (σ : Store) (e' : Entity) (d' : ComponentDef) :
  place e' d' ≠ place (entity w) Reactions.ReactionsComponent →
  contents e' d' (snd (Reactions.add w symbol actor σ)) = contents e' d' σ
  ∧ contents e' d' (snd (Reactions.remove w symbol actor σ)) = contents e' d' σ.
Proof.
  intros Hne. split.
  - destruct (includes symbol " " || includes actor " ") eqn:Hchk.
    + by rewrite add_rejected.
    + unfold Reactions.add. rewrite Hchk. unfold bind.
      rewrite getOrInit_run. unfold Loro.toArray.
      rewrite list_of_getOrInit by (by left).
      destruct (array_includes _ _); cbn [negb].
      * apply contents_init_store.
      * unfold Loro.push. rewrite list_of_getOrInit by (by left). cbn [snd].
        rewrite contents_store_list_ne by done. apply contents_init_store.
  - destruct (includes symbol " " || includes actor " ") eqn:Hchk.
    + by rewrite remove_rejected.
    + destruct (remove_accepted w symbol actor σ Hchk)
        as [[_ ->] | (l1 & l2 & _ & _ & ->)]; cbn [snd].
      * apply contents_init_store.
      * by rewrite contents_store_list_ne.
Qed.

Lemma reactions_keep_other_lists_witness :
  contents (entity_named "msg") components.AuthorUris
    (snd (Reactions.add (wrapper_on Kind.Reactions "msg") "+1" "did:a"
            {[ "msg" := holding components.AuthorUris ["did:a"] ]}))
  = contents (entity_named "msg") components.AuthorUris
      {[ "msg" := holding components.AuthorUris ["did:a"] ]}.
Proof.
  apply (reactions_keep_other_lists (wrapper_on Kind.Reactions "msg")
           "+1" "did:a"
           {[ "msg" := holding components.AuthorUris ["did:a"] ]}
           (entity_named "msg") components.AuthorUris).
  by vm_compute.
Defined.
